(** * NanoClaw agent runner: a shallow embedding of [src/container-runner.ts]

    The host spawns one agent subprocess per invocation, feeds it the
    invocation on stdin, captures bounded stdout/stderr, arms a wall-clock
    timer, and settles a promise from whichever of the timer, the [close]
    event or the [error] event comes first.  It also writes two snapshot
    files into the tenant's IPC directory.

    JavaScript strings are modelled by [string]; one character stands for
    one UTF-16 code unit (code units below 256).  Logging through [pino] has
    no effect on any value of the program and is left out. *)

From Stdlib Require Import ZArith Ascii String List Lia Bool.
From stdpp Require Import base gmap strings pretty.

Local Open Scope Z_scope.
Set Warnings "-register-all".

(** ** JavaScript string primitives used by the runner *)

Module JS.

(** [s.length] *)
Definition len (s : string) : Z := Z.of_nat (String.length s).

(** Relative index resolution shared by the two arguments of
    [String.prototype.slice]: a negative index counts from the end, and
    the result is clamped to [0 .. n]. *)
Definition clampIndex (n : nat) (i : Z) : nat :=
  if i <? 0 then Z.to_nat (Z.max (Z.of_nat n + i) 0)
  else Nat.min (Z.to_nat i) n.

(** [s.slice(b, e)] *)
Definition slice (s : string) (b e : Z) : string :=
  let n := String.length s in
  let from := clampIndex n b in
  let to := clampIndex n e in
  String.substring from (to - from) s.

(** [s.slice(b)] *)
Definition sliceFrom (s : string) (b : Z) : string := slice s b (len s).

(** [s.indexOf(m)]: index of the first occurrence, [-1] when there is none *)
Definition indexOf (s m : string) : Z :=
  match String.index 0 m s with
  | Some i => Z.of_nat i
  | None => -1
  end.

(** White space and line terminators stripped by [String.prototype.trim]
    (tab, LF, VT, FF, CR, space, NBSP). *)
Definition isWhiteSpace (c : ascii) : bool :=
  match c with
  | "009" | "010" | "011" | "012" | "013" | " " | "160" => true
  | _ => false
  end%char.

Fixpoint trimStart (s : string) : string :=
  match s with
  | EmptyString => EmptyString
  | String c s' => if isWhiteSpace c then trimStart s' else s
  end.

Fixpoint trimEnd (s : string) : string :=
  match s with
  | EmptyString => EmptyString
  | String c s' =>
      match trimEnd s' with
      | EmptyString => if isWhiteSpace c then EmptyString else String c EmptyString
      | t => String c t
      end
  end.

(** [s.trim()] *)
Definition trim (s : string) : string := trimEnd (trimStart s).

(** [s.split(sep)] for a one-character separator; never the empty list. *)
Fixpoint split (sep : ascii) (s : string) : list string :=
  match s with
  | EmptyString => [EmptyString]
  | String c s' =>
      if Ascii.eqb c sep then EmptyString :: split sep s'
      else match split sep s' with
           | l :: ls => String c l :: ls
           | [] => [String c EmptyString]
           end
  end.

(** Line feed, the separator of [split('\n')]. *)
Definition LF : ascii := "010"%char.
Definition nl : string := String LF EmptyString.

(** [lines[lines.length - 1]] (the array is never empty here). *)
Definition lastOf (lines : list string) : string := List.last lines EmptyString.

(** Template-literal rendering of a boolean and of an integer. *)
Definition ofBool (b : bool) : string := if b then "true" else "false".
Definition ofInt (z : Z) : string := pretty z.

End JS.

(** ** JSON values

    [JSON.parse] yields, and [JSON.stringify] consumes, values of this
    shape.  The promise of [runContainerAgent] is typed [ContainerOutput]
    in the source, but the parsed value is resolved without any run-time
    check, so the settled value is an arbitrary JSON value. *)

Inductive JSON : Type :=
| JNull
| JBool (b : bool)
| JNum (text : string)                  (* a number, by its JSON text *)
| JStr (s : string)
| JArr (items : list JSON)
| JObj (fields : list (string * JSON)).

(** Property read [v.k]: [None] stands for [undefined]. *)
Fixpoint assoc (k : string) (fields : list (string * JSON)) : option JSON :=
  match fields with
  | [] => None
  | (k', v) :: rest => if String.eqb k k' then Some v else assoc k rest
  end.

Definition getField (k : string) (v : JSON) : option JSON :=
  match v with
  | JObj fields => assoc k fields
  | _ => None
  end.

(** ** Interfaces of the source *)

(** [RegisteredGroup] comes from [types.ts]; the runner reads two fields. *)
Record RegisteredGroup := {
  name : string;
  folder : string
}.

Record ContainerInput := {
  prompt : string;
  sessionId : option string;
  groupFolder : string;
  chatJid : string;
  isMain : bool;
  isScheduledTask : option bool
}.

Inductive Status := Success | Error.

Record ContainerOutput := {
  status : Status;
  result : option string;
  newSessionId : option string;
  error : option string
}.

(** Element type of the [tasks] argument of [writeTasksSnapshot]. *)
Record Task := {
  task_id : string;
  task_groupFolder : string;
  task_prompt : string;
  schedule_type : string;
  schedule_value : string;
  task_status : string;
  next_run : option string
}.

Record AvailableGroup := {
  jid : string;
  group_name : string;
  lastActivity : string;
  isRegistered : bool
}.

(** The objects as JSON values (optional fields that are [undefined] are
    absent). *)
Definition optField (k : string) (o : option JSON) : list (string * JSON) :=
  match o with
  | Some v => [(k, v)]
  | None => []
  end.

Definition nullable (o : option string) : JSON :=
  match o with
  | Some s => JStr s
  | None => JNull
  end.

Definition inputJSON (i : ContainerInput) : JSON :=
  JObj ([("prompt", JStr (prompt i))]
        ++ optField "sessionId" (JStr <$> sessionId i)
        ++ [("groupFolder", JStr (groupFolder i));
            ("chatJid", JStr (chatJid i));
            ("isMain", JBool (isMain i))]
        ++ optField "isScheduledTask" (JBool <$> isScheduledTask i)).

Definition statusText (s : Status) : string :=
  match s with
  | Success => "success"
  | Error => "error"
  end.

Definition outputJSON (o : ContainerOutput) : JSON :=
  JObj ([("status", JStr (statusText (status o)));
         ("result", nullable (result o))]
        ++ optField "newSessionId" (JStr <$> newSessionId o)
        ++ optField "error" (JStr <$> error o)).

Definition taskJSON (t : Task) : JSON :=
  JObj [("id", JStr (task_id t));
        ("groupFolder", JStr (task_groupFolder t));
        ("prompt", JStr (task_prompt t));
        ("schedule_type", JStr (schedule_type t));
        ("schedule_value", JStr (schedule_value t));
        ("status", JStr (task_status t));
        ("next_run", nullable (next_run t))].

Definition groupJSON (g : AvailableGroup) : JSON :=
  JObj [("jid", JStr (jid g));
        ("name", JStr (group_name g));
        ("lastActivity", JStr (lastActivity g));
        ("isRegistered", JBool (isRegistered g))].

(** The error results the runner builds:
    [{ status: 'error', result: null, error: msg }]. *)
Definition errorOutput (msg : string) : JSON :=
  JObj [("status", JStr "error"); ("result", JNull); ("error", JStr msg)].

(** Whether a settled value has the shape of the [ContainerOutput]
    interface. *)
Definition isStringOrAbsent (o : option JSON) : bool :=
  match o with
  | None | Some (JStr _) => true
  | _ => false
  end.

Definition isContainerOutput (v : JSON) : bool :=
  match v with
  | JObj _ =>
      match getField "status" v with
      | Some (JStr s) => String.eqb s "success" || String.eqb s "error"
      | _ => false
      end
      && match getField "result" v with
         | Some (JStr _) | Some JNull => true
         | _ => false
         end
      && isStringOrAbsent (getField "newSessionId" v)
      && isStringOrAbsent (getField "error" v)
  | _ => false
  end.

(** Sentinel markers for robust output parsing (must match agent-runner) *)
Definition OUTPUT_START_MARKER : string := "---NANOCLAW_OUTPUT_START---".
Definition OUTPUT_END_MARKER : string := "---NANOCLAW_OUTPUT_END---".

(** ** Effects *)

(** Calls into Node's [fs] module.  The runner never calls [renameSync];
    the constructor is there so that traces can be compared with a
    write-then-rename discipline. *)
Inductive FsCall :=
| MkdirSync (path : string)               (* [{ recursive: true }] *)
| WriteFileSync (path data : string)
| RenameSync (oldPath newPath : string).

(** What the runner does to the outside world, in program order. *)
Inductive Effect :=
| Fs (c : FsCall)
| Spawn (command : string) (args : list string) (env : gmap string string) (cwd : string)
| StdinWrite (data : string)
| StdinEnd
| SetTimeout (ms : Z)
| ClearTimeout
| Kill (signal : string)
| Resolve (value : JSON).

(** What the outside world does to the runner.  A data event carries the
    chunk as its listener decodes it, [data.toString()]: the listeners
    decode every chunk by itself and work on the decoded text only. *)
Inductive Event :=
| StdoutData (chunk : string)
| StderrData (chunk : string)
| TimerFires
| ChildClose (code : option Z) (now : Z) (stamp stamp' : string)
| ChildError (message : string).

(** Variables of the promise executor's closure, together with the state
    of the timer and of the promise. *)
Record State := {
  stdout : string;
  stderr : string;
  stdoutTruncated : bool;
  stderrTruncated : bool;
  timerPending : bool;
  settled : option JSON;
  effects : list Effect
}.

(** A synchronous computation either returns or throws an [Error] with a
    message; the [fs] calls made so far are kept. *)
Inductive Completion (A : Type) :=
| Normal (a : A)
| Throw (message : string).
Arguments Normal {A} a.
Arguments Throw {A} message.

Definition FsM (A : Type) : Type := list FsCall * Completion A.

#[global] Instance FsM_ret : MRet FsM := fun A a => ([], Normal a).

#[global] Instance FsM_bind : MBind FsM := fun A B k m =>
  match m with
  | (calls, Normal a) => let '(calls', r) := k a in (calls ++ calls', r)
  | (calls, Throw e) => (calls, Throw e)
  end.

(** An event listener either returns or lets an exception escape, which
    by default terminates the Node process. *)
Inductive HandlerResult :=
| Returned (st : State)
| Uncaught (message : string) (st : State).

(** The promise returned by the [async] function [runContainerAgent]. *)
Inductive Outcome :=
| Rejected (message : string) (calls : list FsCall)
| Crashed (message : string) (st : State)
| Running (st : State).

(** ** A reference implementation of the JSON functions

    [JSON.parse] and [JSON.stringify] belong to the platform and are
    parameters of the runner.  [MiniJSON] is an executable instance after
    ECMA-404, used to run the runner on concrete outputs.  Numbers are
    kept as their text; a [\u] escape above code unit 255 has no
    counterpart in [string] and is refused. *)

Module MiniJSON.

Definition dq : ascii := "034"%char.          (* double quote *)
Definition bs : ascii := "092"%char.          (* backslash *)

Definition isWs (c : ascii) : bool :=
  match c with
  | " " | "009" | "010" | "013" => true
  | _ => false
  end%char.

Fixpoint skipWs (s : string) : string :=
  match s with
  | String c s' => if isWs c then skipWs s' else s
  | EmptyString => EmptyString
  end.

Definition isDigit (c : ascii) : bool :=
  (48 <=? nat_of_ascii c)%nat && (nat_of_ascii c <=? 57)%nat.

Definition hexVal (c : ascii) : option nat :=
  let n := nat_of_ascii c in
  if (48 <=? n)%nat && (n <=? 57)%nat then Some (n - 48)%nat
  else if (97 <=? n)%nat && (n <=? 102)%nat then Some (n - 87)%nat
  else if (65 <=? n)%nat && (n <=? 70)%nat then Some (n - 55)%nat
  else None.

Definition hexDigit (n : nat) : ascii :=
  ascii_of_nat (if (n <? 10)%nat then 48 + n else 87 + n)%nat.

(** The characters of a string literal after its opening quote, and the
    text after its closing quote. *)
Fixpoint parseChars (s : string) : option (string * string) :=
  match s with
  | EmptyString => None
  | String c s' =>
      if Ascii.eqb c dq then Some (EmptyString, s')
      else if Ascii.eqb c bs then
        match s' with
        | String e s'' =>
            let plain (x : ascii) :=
              match parseChars s'' with
              | Some (t, rest) => Some (String x t, rest)
              | None => None
              end in
            if Ascii.eqb e dq then plain dq
            else if Ascii.eqb e bs then plain bs
            else if Ascii.eqb e "/" then plain "/"%char
            else if Ascii.eqb e "b" then plain "008"%char
            else if Ascii.eqb e "f" then plain "012"%char
            else if Ascii.eqb e "n" then plain "010"%char
            else if Ascii.eqb e "r" then plain "013"%char
            else if Ascii.eqb e "t" then plain "009"%char
            else if Ascii.eqb e "u" then
              match s'' with
              | String h1 (String h2 (String h3 (String h4 s4))) =>
                  match hexVal h1, hexVal h2, hexVal h3, hexVal h4 with
                  | Some 0%nat, Some 0%nat, Some a, Some b =>
                      match parseChars s4 with
                      | Some (t, rest) => Some (String (ascii_of_nat (16 * a + b)) t, rest)
                      | None => None
                      end
                  | _, _, _, _ => None
                  end
              | _ => None
              end
            else None
        | EmptyString => None
        end
      else if (nat_of_ascii c <? 32)%nat then None
      else match parseChars s' with
           | Some (t, rest) => Some (String c t, rest)
           | None => None
           end
  end.

(** The longest run of digits at the head of a text, and what follows. *)
Fixpoint takeDigits (s : string) : string * string :=
  match s with
  | String c s' =>
      if isDigit c
      then let '(ds, rest) := takeDigits s' in (String c ds, rest)
      else (EmptyString, s)
  | EmptyString => (EmptyString, s)
  end.

(** A non-empty run of digits. *)
Definition digits1 (s : string) : option (string * string) :=
  match takeDigits s with
  | (EmptyString, _) => None
  | (ds, rest) => Some (ds, rest)
  end.

(** The grammar of numbers: an optional minus sign; [0] or digits without
    a leading zero; an optional fraction; an optional exponent.  The text
    of the number and what follows it. *)
Definition parseNumber (s : string) : option (string * string) :=
  let '(sign, s1) :=
    match s with
    | String "-" s' => ("-", s')
    | _ => ("", s)
    end in
  let whole :=
    match s1 with
    | String "0" s2 => Some ("0", s2)
    | _ => digits1 s1
    end in
  match whole with
  | None => None
  | Some (w, s2) =>
      let fraction :=
        match s2 with
        | String "." s3 =>
            match digits1 s3 with
            | Some (ds, s4) => Some (String "." ds, s4)
            | None => None
            end
        | _ => Some ("", s2)
        end in
      match fraction with
      | None => None
      | Some (f, s4) =>
          let exponent :=
            match s4 with
            | String e s5 =>
                if Ascii.eqb e "e" || Ascii.eqb e "E" then
                  let '(esign, s6) :=
                    match s5 with
                    | String "+" s' => ("+", s')
                    | String "-" s' => ("-", s')
                    | _ => ("", s5)
                    end in
                  match digits1 s6 with
                  | Some (ds, s7) => Some (String e (esign +:+ ds), s7)
                  | None => None
                  end
                else Some ("", s4)
            | EmptyString => Some ("", s4)
            end in
          match exponent with
          | None => None
          | Some (x, s7) => Some (sign +:+ w +:+ f +:+ x, s7)
          end
      end
  end.

Definition expect (lit : string) (v : JSON) (s : string) : option (JSON * string) :=
  if String.prefix lit s
  then Some (v, String.substring (String.length lit) (String.length s - String.length lit) s)
  else None.

Fixpoint parseValue (fuel : nat) (s : string) : option (JSON * string) :=
  match fuel with
  | O => None
  | S fuel =>
      match skipWs s with
      | EmptyString => None
      | String c s' as t =>
          if Ascii.eqb c "n" then expect "null" JNull t
          else if Ascii.eqb c "t" then expect "true" (JBool true) t
          else if Ascii.eqb c "f" then expect "false" (JBool false) t
          else if Ascii.eqb c dq then
            match parseChars s' with
            | Some (str, rest) => Some (JStr str, rest)
            | None => None
            end
          else if Ascii.eqb c "-" || isDigit c then
            match parseNumber t with
            | Some (n, rest) => Some (JNum n, rest)
            | None => None
            end
          else if Ascii.eqb c "[" then
            match skipWs s' with
            | String "]" rest => Some (JArr [], rest)
            | _ =>
                match parseElements fuel s' with
                | Some (items, rest) => Some (JArr items, rest)
                | None => None
                end
            end
          else if Ascii.eqb c "{" then
            match skipWs s' with
            | String "}" rest => Some (JObj [], rest)
            | _ =>
                match parseMembers fuel s' with
                | Some (fields, rest) => Some (JObj fields, rest)
                | None => None
                end
            end
          else None
      end
  end

(** One or more values separated by commas, up to the closing bracket. *)
with parseElements (fuel : nat) (s : string) : option (list JSON * string) :=
  match fuel with
  | O => None
  | S fuel =>
      match parseValue fuel s with
      | Some (v, rest) =>
          match skipWs rest with
          | String "," rest' =>
              match parseElements fuel rest' with
              | Some (vs, rest'') => Some (v :: vs, rest'')
              | None => None
              end
          | String "]" rest' => Some ([v], rest')
          | _ => None
          end
      | None => None
      end
  end

(** One or more [key : value] members, up to the closing brace. *)
with parseMembers (fuel : nat) (s : string) : option (list (string * JSON) * string) :=
  match fuel with
  | O => None
  | S fuel =>
      match skipWs s with
      | String c s' =>
          if Ascii.eqb c dq then
            match parseChars s' with
            | Some (k, rest) =>
                match skipWs rest with
                | String ":" rest' =>
                    match parseValue fuel rest' with
                    | Some (v, rest'') =>
                        match skipWs rest'' with
                        | String "," rest3 =>
                            match parseMembers fuel rest3 with
                            | Some (fs, rest4) => Some ((k, v) :: fs, rest4)
                            | None => None
                            end
                        | String "}" rest3 => Some ([(k, v)], rest3)
                        | _ => None
                        end
                    | None => None
                    end
                | _ => None
                end
            | None => None
            end
          else None
      | EmptyString => None
      end
  end.

(** [JSON.parse(text)]: the value, or the message of the [SyntaxError]. *)
Definition parse (text : string) : JSON + string :=
  match parseValue (2 * String.length text + 2) text with
  | Some (v, rest) =>
      match skipWs rest with
      | EmptyString => inl v
      | _ => inr "Unexpected non-whitespace character after JSON"
      end
  | None => inr "Unexpected token or end of JSON input"
  end.

Definition escape (c : ascii) : string :=
  if Ascii.eqb c dq then String bs (String dq EmptyString)
  else if Ascii.eqb c bs then String bs (String bs EmptyString)
  else if Ascii.eqb c "008" then String bs "b"
  else if Ascii.eqb c "012" then String bs "f"
  else if Ascii.eqb c "010" then String bs "n"
  else if Ascii.eqb c "013" then String bs "r"
  else if Ascii.eqb c "009" then String bs "t"
  else if (nat_of_ascii c <? 32)%nat then
    String bs ("u00" +:+ String (hexDigit (nat_of_ascii c / 16))
                       (String (hexDigit (nat_of_ascii c mod 16)) EmptyString))
  else String c EmptyString.

Fixpoint escapeAll (s : string) : string :=
  match s with
  | EmptyString => EmptyString
  | String c s' => escape c +:+ escapeAll s'
  end.

Definition quote (s : string) : string :=
  String dq (escapeAll s +:+ String dq EmptyString).

(** [JSON.stringify(v)] *)
Fixpoint stringify (v : JSON) : string :=
  match v with
  | JNull => "null"
  | JBool b => JS.ofBool b
  | JNum text => text
  | JStr s => quote s
  | JArr items => "[" +:+ String.concat "," (map stringify items) +:+ "]"
  | JObj fields =>
      "{" +:+ String.concat ","
                (map (fun kv => quote (fst kv) +:+ ":" +:+ stringify (snd kv)) fields)
          +:+ "}"
  end.

(** One member of an object, as [stringify] writes it. *)
Definition member (kv : string * JSON) : string :=
  quote (fst kv) +:+ ":" +:+ stringify (snd kv).

(** The values found in worker results: strings and [null]. *)
Definition flat (v : JSON) : bool :=
  match v with
  | JStr _ | JNull => true
  | _ => false
  end.

(** [JSON.stringify(v, null, 2)], at the given current indentation *)
Fixpoint stringifyAt (indent : string) (v : JSON) : string :=
  let inner := indent +:+ "  " in
  let sep := "," +:+ JS.nl +:+ inner in
  match v with
  | JArr [] => "[]"
  | JArr items =>
      "[" +:+ JS.nl +:+ inner +:+ String.concat sep (map (stringifyAt inner) items)
          +:+ JS.nl +:+ indent +:+ "]"
  | JObj [] => "{}"
  | JObj fields =>
      "{" +:+ JS.nl +:+ inner
          +:+ String.concat sep
                (map (fun kv => quote (fst kv) +:+ ": " +:+ stringifyAt inner (snd kv)) fields)
          +:+ JS.nl +:+ indent +:+ "}"
  | _ => stringify v
  end.

Definition stringifyPretty (v : JSON) : string := stringifyAt "" v.

(** [path.join] on POSIX for segments that need no normalisation. *)
Definition joinPath (segments : list string) : string := String.concat "/" segments.

End MiniJSON.


(** ** A sample installation, for running the model *)

Module Sample.

Definition group : RegisteredGroup := {| name := "Family"; folder := "family" |}.

Definition input : ContainerInput :=
  {| prompt := "hello"; sessionId := None; groupFolder := "family";
     chatJid := "120363@g.us"; isMain := false; isScheduledTask := None |}.

Definition env : gmap string string := {[ "HOME" := "/home/nano" ]}.

(** A host that was itself started with [WORKSPACE_PROJECT] set. *)
Definition nestedEnv : gmap string string :=
  {[ "HOME" := "/home/nano"; "WORKSPACE_PROJECT" := "/srv/outer" ]}.

(** A file system on which every call succeeds, and one on which the
    groups directory cannot be written. *)
Definition healthy (c : FsCall) : option string := None.

Definition readOnlyGroups (c : FsCall) : option string :=
  match c with
  | MkdirSync p =>
      if String.prefix "groups" p
      then Some ("EACCES: permission denied, mkdir '" +:+ p +:+ "'")
      else None
  | WriteFileSync p _ =>
      if String.prefix "groups" p
      then Some ("EACCES: permission denied, open '" +:+ p +:+ "'")
      else None
  | RenameSync _ _ => None
  end.

(** A disk without room left: directories can be made, files cannot be
    written. *)
Definition fullDisk (c : FsCall) : option string :=
  match c with
  | WriteFileSync _ _ => Some "ENOSPC: no space left on device, write"
  | _ => None
  end.

Definition task (owner : string) (text : string) : Task :=
  {| task_id := "t-" +:+ owner; task_groupFolder := owner; task_prompt := text;
     schedule_type := "once"; schedule_value := "2024-01-01T00:00:00Z";
     task_status := "active"; next_run := None |}.

Definition chat : AvailableGroup :=
  {| jid := "120363@g.us"; group_name := "Family";
     lastActivity := "2024-01-01T00:00:00.000Z"; isRegistered := true |}.

Definition ok : ContainerOutput :=
  {| status := Success; result := Some "done"; newSessionId := Some "s1";
     error := None |}.

End Sample.

(** ** The runner *)

Section Runner.

(** Constants of [config.ts]. *)
Variable AGENT_RUNNER_PATH : string.
Variable AGENT_TIMEOUT : Z.
Variable AGENT_MAX_OUTPUT_SIZE : Z.
Variable GROUPS_DIR : string.
Variable DATA_DIR : string.

(** The platform: [path.join], [JSON.parse] (a value, or the message of
    the [SyntaxError] it throws), [JSON.stringify(v)] and
    [JSON.stringify(v, null, 2)], [process.cwd()], [process.env], and for
    each [fs] call whether it throws (and with which message). *)
Variable path_join : list string -> string.
Variable JSON_parse : string -> JSON + string.
Variable JSON_stringify : JSON -> string.
Variable JSON_stringify_pretty : JSON -> string.
Variable process_cwd : string.
Variable process_env : gmap string string.
Variable fs_throws : FsCall -> option string.

Definition fsCall (c : FsCall) : FsM unit :=
  ([c], match fs_throws c with
        | Some e => Throw e
        | None => Normal tt
        end).

Definition mkdirSync (p : string) : FsM unit := fsCall (MkdirSync p).
Definition writeFileSync (p data : string) : FsM unit := fsCall (WriteFileSync p data).

(** *** [buildAgentEnv] *)

Definition buildAgentEnv (group : RegisteredGroup) (isMain : bool)
  : FsM (gmap string string) :=
  let projectRoot := process_cwd in
  let groupDir := path_join [GROUPS_DIR; folder group] in
  let globalDir := path_join [GROUPS_DIR; "global"] in
  let groupIpcDir := path_join [DATA_DIR; "ipc"; folder group] in
  let groupSessionsDir := path_join [DATA_DIR; "sessions"; folder group; ".claude"] in
  mkdirSync groupDir ;;
  mkdirSync (path_join [groupIpcDir; "messages"]) ;;
  mkdirSync (path_join [groupIpcDir; "tasks"]) ;;
  mkdirSync groupSessionsDir ;;
  let env : gmap string string :=
    <["CLAUDE_CONFIG_DIR" := groupSessionsDir]>
      (<["WORKSPACE_IPC" := groupIpcDir]>
         (<["WORKSPACE_GLOBAL" := globalDir]>
            (<["WORKSPACE_GROUP" := groupDir]> process_env))) in
  let env : gmap string string :=
    if isMain then <["WORKSPACE_PROJECT" := projectRoot]> env else env in
  mret env.

(** *** State updates of the promise executor's closure *)

Definition emit (e : Effect) (st : State) : State :=
  {| stdout := stdout st; stderr := stderr st;
     stdoutTruncated := stdoutTruncated st; stderrTruncated := stderrTruncated st;
     timerPending := timerPending st; settled := settled st;
     effects := effects st ++ [e] |}.

(** [resolve(v)]: settles a pending promise; on a settled one it is a
    no-op. *)
Definition resolve (v : JSON) (st : State) : State :=
  {| stdout := stdout st; stderr := stderr st;
     stdoutTruncated := stdoutTruncated st; stderrTruncated := stderrTruncated st;
     timerPending := timerPending st;
     settled := match settled st with
                | Some w => Some w
                | None => Some v
                end;
     effects := effects st ++ [Resolve v] |}.

(** [clearTimeout(timeout)] *)
Definition clearTimeout (st : State) : State :=
  {| stdout := stdout st; stderr := stderr st;
     stdoutTruncated := stdoutTruncated st; stderrTruncated := stderrTruncated st;
     timerPending := false; settled := settled st;
     effects := effects st ++ [ClearTimeout] |}.

(** The timer is no longer pending once its callback runs. *)
Definition timerRan (st : State) : State :=
  {| stdout := stdout st; stderr := stderr st;
     stdoutTruncated := stdoutTruncated st; stderrTruncated := stderrTruncated st;
     timerPending := false; settled := settled st;
     effects := effects st |}.

Definition setStdout (s : string) (truncated : bool) (st : State) : State :=
  {| stdout := s; stderr := stderr st;
     stdoutTruncated := truncated; stderrTruncated := stderrTruncated st;
     timerPending := timerPending st; settled := settled st;
     effects := effects st |}.

Definition setStderr (s : string) (truncated : bool) (st : State) : State :=
  {| stdout := stdout st; stderr := s;
     stdoutTruncated := stdoutTruncated st; stderrTruncated := truncated;
     timerPending := timerPending st; settled := settled st;
     effects := effects st |}.

(** *** Stream listeners *)

(** [child.stdout.on('data', ...)] *)
Definition onStdoutData (chunk : string) (st : State) : State :=
  if stdoutTruncated st then st
  else
    let remaining := AGENT_MAX_OUTPUT_SIZE - JS.len (stdout st) in
    if JS.len chunk >? remaining
    then setStdout (stdout st +:+ JS.slice chunk 0 remaining) true st
    else setStdout (stdout st +:+ chunk) false st.

(** [child.stderr.on('data', ...)] (the per-line debug logging has no
    effect on the state) *)
Definition onStderrData (chunk : string) (st : State) : State :=
  if stderrTruncated st then st
  else
    let remaining := AGENT_MAX_OUTPUT_SIZE - JS.len (stderr st) in
    if JS.len chunk >? remaining
    then setStderr (stderr st +:+ JS.slice chunk 0 remaining) true st
    else setStderr (stderr st +:+ chunk) false st.

(** *** Timer callback *)

Definition timeoutMessage : string :=
  "Agent timed out after " +:+ JS.ofInt AGENT_TIMEOUT +:+ "ms".

Definition onTimeout (st : State) : State :=
  resolve (errorOutput timeoutMessage) (emit (Kill "SIGKILL") (timerRan st)).

(** *** [close] listener *)

(** [`${code}`]: the exit code is [null] when a signal ended the child. *)
Definition showCode (code : option Z) : string :=
  match code with
  | Some c => JS.ofInt c
  | None => "null"
  end.

(** [code !== 0] *)
Definition nonZero (code : option Z) : bool :=
  match code with
  | Some 0 => false
  | _ => true
  end.

(** [.replace(/[:.]/g, '-')] *)
Fixpoint dashed (s : string) : string :=
  match s with
  | EmptyString => EmptyString
  | String c s' =>
      String (if Ascii.eqb c ":" || Ascii.eqb c "." then "-"%char else c) (dashed s')
  end.

Definition isVerbose : bool :=
  match process_env !! "LOG_LEVEL" with
  | Some l => String.eqb l "debug" || String.eqb l "trace"
  | None => false
  end.

(** [input.sessionId || 'new'] *)
Definition sessionOrNew (input : ContainerInput) : string :=
  match sessionId input with
  | Some s => if String.eqb s "" then "new" else s
  | None => "new"
  end.

Definition truncatedTag (b : bool) : string :=
  if b then " (TRUNCATED)" else "".

Definition logLines (group : RegisteredGroup) (input : ContainerInput)
    (duration : Z) (code : option Z) (stamp' : string) (st : State)
  : list string :=
  [ "=== Agent Run Log ===";
    "Timestamp: " +:+ stamp';
    "Group: " +:+ name group;
    "IsMain: " +:+ JS.ofBool (isMain input);
    "Duration: " +:+ JS.ofInt duration +:+ "ms";
    "Exit Code: " +:+ showCode code;
    "Stdout Truncated: " +:+ JS.ofBool (stdoutTruncated st);
    "Stderr Truncated: " +:+ JS.ofBool (stderrTruncated st);
    "" ]
  ++ (if isVerbose then
        [ "=== Input ===";
          JSON_stringify_pretty (inputJSON input);
          "";
          "=== Stderr" +:+ truncatedTag (stderrTruncated st) +:+ " ===";
          stderr st;
          "";
          "=== Stdout" +:+ truncatedTag (stdoutTruncated st) +:+ " ===";
          stdout st ]
      else
        [ "=== Input Summary ===";
          "Prompt length: " +:+ JS.ofInt (JS.len (prompt input)) +:+ " chars";
          "Session ID: " +:+ sessionOrNew input;
          "" ]
        ++ (if nonZero code then
              [ "=== Stderr (last 500 chars) ===";
                JS.sliceFrom (stderr st) (-500);
                "" ]
            else [])).

(** The text handed to [JSON.parse]. *)
Definition jsonLine (stdout : string) : string :=
  let startIdx := JS.indexOf stdout OUTPUT_START_MARKER in
  let endIdx := JS.indexOf stdout OUTPUT_END_MARKER in
  if negb (startIdx =? -1) && negb (endIdx =? -1) && (endIdx >? startIdx)
  then JS.trim (JS.slice stdout (startIdx + JS.len OUTPUT_START_MARKER) endIdx)
  else JS.lastOf (JS.split JS.LF (JS.trim stdout)).

(** Message of the [TypeError] V8 throws for [output.status] when
    [output] is [null]. *)
Definition nullStatusMessage : string :=
  "Cannot read properties of null (reading 'status')".

Definition parseFailure (message : string) : JSON :=
  errorOutput ("Failed to parse agent output: " +:+ message).

(** The [try { ... } catch (err) { ... }] block of the [close] listener:
    the value it passes to [resolve]. *)
Definition parseAgentOutput (stdout : string) : JSON :=
  match JSON_parse (jsonLine stdout) with
  | inl JNull => parseFailure nullStatusMessage
  | inl output => output
  | inr message => parseFailure message
  end.

Definition exitMessage (code : option Z) (stderr : string) : string :=
  "Agent exited with code " +:+ showCode code +:+ ": " +:+ JS.sliceFrom stderr (-200).

Definition onClose (group : RegisteredGroup) (input : ContainerInput)
    (startTime : Z) (code : option Z) (now : Z) (stamp stamp' : string)
    (st : State) : HandlerResult :=
  let st := clearTimeout st in
  let duration := now - startTime in
  let logsDir := path_join [GROUPS_DIR; folder group; "logs"] in
  let logFile := path_join [logsDir; "agent-" +:+ dashed stamp +:+ ".log"] in
  let write :=
    WriteFileSync logFile
      (String.concat JS.nl (logLines group input duration code stamp' st)) in
  let st := emit (Fs write) st in
  match fs_throws write with
  | Some e => Uncaught e st
  | None =>
      if nonZero code
      then Returned (resolve (errorOutput (exitMessage code (stderr st))) st)
      else Returned (resolve (parseAgentOutput (stdout st)) st)
  end.

(** *** [error] listener *)

Definition onError (message : string) (st : State) : State :=
  resolve (errorOutput ("Agent spawn error: " +:+ message)) (clearTimeout st).

(** *** Event loop *)

Definition step (group : RegisteredGroup) (input : ContainerInput)
    (startTime : Z) (st : State) (ev : Event) : HandlerResult :=
  match ev with
  | StdoutData chunk => Returned (onStdoutData chunk st)
  | StderrData chunk => Returned (onStderrData chunk st)
  | TimerFires => Returned (if timerPending st then onTimeout st else st)
  | ChildClose code now stamp stamp' =>
      onClose group input startTime code now stamp stamp' st
  | ChildError message => Returned (onError message st)
  end.

Fixpoint run (group : RegisteredGroup) (input : ContainerInput)
    (startTime : Z) (st : State) (events : list Event) : HandlerResult :=
  match events with
  | [] => Returned st
  | ev :: rest =>
      match step group input startTime st ev with
      | Returned st' => run group input startTime st' rest
      | Uncaught e st' => Uncaught e st'
      end
  end.

(** The statements of [runContainerAgent] before [new Promise]. *)
Definition prepare (group : RegisteredGroup) (input : ContainerInput)
  : FsM (gmap string string) :=
  let groupDir := path_join [GROUPS_DIR; folder group] in
  mkdirSync groupDir ;;
  env ← buildAgentEnv group (isMain input) ;
  let logsDir := path_join [GROUPS_DIR; folder group; "logs"] in
  mkdirSync logsDir ;;
  mret env.

(** The state the promise executor leaves behind: the child is spawned,
    the input is written to its stdin, the timer is armed. *)
Definition spawned (group : RegisteredGroup) (input : ContainerInput)
    (calls : list FsCall) (env : gmap string string) : State :=
  {| stdout := ""; stderr := "";
     stdoutTruncated := false; stderrTruncated := false;
     timerPending := true; settled := None;
     effects := map Fs calls
                ++ [ Spawn "node" [AGENT_RUNNER_PATH] env
                       (path_join [GROUPS_DIR; folder group]);
                     StdinWrite (JSON_stringify (inputJSON input));
                     StdinEnd;
                     SetTimeout AGENT_TIMEOUT ] |}.

(** [runContainerAgent(group, input)] under a schedule of events. *)
Definition runContainerAgent (group : RegisteredGroup) (input : ContainerInput)
    (startTime : Z) (events : list Event) : Outcome :=
  match prepare group input with
  | (calls, Throw e) => Rejected e calls
  | (calls, Normal env) =>
      match run group input startTime (spawned group input calls env) events with
      | Returned st => Running st
      | Uncaught e st => Crashed e st
      end
  end.

(** What the caller's [await] has received, if anything. *)
Definition received (o : Outcome) : option JSON :=
  match o with
  | Rejected _ _ => None
  | Crashed _ st => settled st
  | Running st => settled st
  end.

(** *** Snapshots *)

(** Main sees all tasks, others only see their own *)
Definition filteredTasks (groupFolder : string) (isMain : bool)
    (tasks : list Task) : list Task :=
  if isMain then tasks
  else List.filter (fun t => String.eqb (task_groupFolder t) groupFolder) tasks.

Definition writeTasksSnapshot (groupFolder : string) (isMain : bool)
    (tasks : list Task) : FsM unit :=
  let groupIpcDir := path_join [DATA_DIR; "ipc"; groupFolder] in
  mkdirSync groupIpcDir ;;
  let tasksFile := path_join [groupIpcDir; "current_tasks.json"] in
  writeFileSync tasksFile
    (JSON_stringify_pretty
       (JArr (map taskJSON (filteredTasks groupFolder isMain tasks)))).

(** Main sees all groups; others see nothing (they can't activate groups) *)
Definition visibleGroups (isMain : bool) (groups : list AvailableGroup)
  : list AvailableGroup :=
  if isMain then groups else [].

Definition writeGroupsSnapshot (groupFolder : string) (isMain : bool)
    (groups : list AvailableGroup) (registeredJids : gset string)
    (lastSync : string) : FsM unit :=
  let groupIpcDir := path_join [DATA_DIR; "ipc"; groupFolder] in
  mkdirSync groupIpcDir ;;
  let groupsFile := path_join [groupIpcDir; "available_groups.json"] in
  writeFileSync groupsFile
    (JSON_stringify_pretty
       (JObj [("groups", JArr (map groupJSON (visibleGroups isMain groups)));
              ("lastSync", JStr lastSync)])).


(** ** Notions used in the statements *)

Definition stateOf (r : HandlerResult) : State :=
  match r with
  | Returned st => st
  | Uncaught _ st => st
  end.

(** Schedules made of stream data only: no timer, [close] or [error]. *)
Definition isData (ev : Event) : bool :=
  match ev with
  | StdoutData _ | StderrData _ => true
  | _ => false
  end.

Definition dataOnly (events : list Event) : bool := forallb isData events.

(** The host has seen the child's [close] event. *)
Definition exitObserved (events : list Event) : bool :=
  existsb (fun ev => match ev with ChildClose _ _ _ _ => true | _ => false end) events.

(** Number of processes spawned. *)
Fixpoint spawns (effs : list Effect) : nat :=
  match effs with
  | [] => 0
  | Spawn _ _ _ _ :: rest => S (spawns rest)
  | _ :: rest => spawns rest
  end.

Definition isErrorOutput (v : JSON) : Prop := exists msg : string, v = errorOutput msg.

(** The stdout chunks of a schedule, in order of arrival. *)
Fixpoint stdoutChunks (events : list Event) : list string :=
  match events with
  | [] => []
  | StdoutData chunk :: rest => chunk :: stdoutChunks rest
  | _ :: rest => stdoutChunks rest
  end.

(** The text delivered on stdout under a schedule: the chunks, each as
    decoded by the listener, joined in order of arrival. *)
Definition written (events : list Event) : string :=
  String.concat "" (stdoutChunks events).

Definition timerFired (events : list Event) : bool :=
  existsb (fun ev => match ev with TimerFires => true | _ => false end) events.

(** Invariant of the buffer: it is within the cap; while the flag is
    clear it holds all that was written; once the flag is set it is full
    and more than the cap was written. *)
Definition bufferInv (total : string) (st : State) : Prop :=
  JS.len (stdout st) <= AGENT_MAX_OUTPUT_SIZE
  /\ (stdoutTruncated st = false -> stdout st = total)
  /\ (stdoutTruncated st = true ->
      JS.len (stdout st) = AGENT_MAX_OUTPUT_SIZE
      /\ AGENT_MAX_OUTPUT_SIZE < JS.len total).

(** A marker occurs in [s] at index [i]; it occurs there first. *)
Definition occursAt (m s : string) (i : nat) : Prop :=
  String.substring i (String.length m) s = m.

Definition firstAt (m s : string) (i : nat) : Prop :=
  occursAt m s i /\ forall k : nat, (k < i)%nat -> ~ occursAt m s k.

(** Lines of white space only. *)
Fixpoint blank (s : string) : bool :=
  match s with
  | EmptyString => true
  | String c s' => JS.isWhiteSpace c && blank s'
  end.



(** Log lines, each ended by a line feed. *)
Definition unlines (lines : list string) : string :=
  String.concat "" (map (fun l => l +:+ JS.nl) lines).

(** The marker does not occur in the text. *)
Definition free (m s : string) : Prop := String.index 0 m s = None.

(** The character occurs in the text. *)
Fixpoint mentions (c : ascii) (s : string) : bool :=
  match s with
  | EmptyString => false
  | String d s' => Ascii.eqb d c || mentions c s'
  end.

(** *** Notions for the rest of the runner *)

(** The stderr chunks of a schedule, and the text delivered on stderr:
    the chunks, each as decoded by the listener, joined in order of
    arrival. *)
Fixpoint stderrChunks (events : list Event) : list string :=
  match events with
  | [] => []
  | StderrData chunk :: rest => chunk :: stderrChunks rest
  | _ :: rest => stderrChunks rest
  end.

Definition writtenErr (events : list Event) : string :=
  String.concat "" (stderrChunks events).

(** A capture buffer holds the head of the text delivered to its
    listener, as long as the cap allows, and its flag tells whether that
    text was longer than the cap. *)
Definition headOf (total buffer : string) (truncated : bool) : Prop :=
  buffer = String.substring 0 (Z.to_nat AGENT_MAX_OUTPUT_SIZE) total
  /\ truncated = (AGENT_MAX_OUTPUT_SIZE <? JS.len total).

(** Number of signals sent to the child. *)
Fixpoint kills (effs : list Effect) : nat :=
  match effs with
  | [] => 0
  | Kill _ :: rest => S (kills rest)
  | _ :: rest => kills rest
  end.

(** The arguments of the calls of [resolve], in order. *)
Fixpoint resolved (effs : list Effect) : list JSON :=
  match effs with
  | [] => []
  | Resolve v :: rest => v :: resolved rest
  | _ :: rest => resolved rest
  end.

(** The effects a listener or the timer callback can have. *)
Definition byListener (group : RegisteredGroup) (e : Effect) : Prop :=
  e = ClearTimeout
  \/ e = Kill "SIGKILL"
  \/ (exists v : JSON, e = Resolve v)
  \/ (exists stamp data : string,
         e = Fs (WriteFileSync
                   (path_join [path_join [GROUPS_DIR; folder group; "logs"];
                               "agent-" +:+ dashed stamp +:+ ".log"])
                   data)).

(** The directories [runContainerAgent] creates before it spawns, in the
    order of the calls (the group directory is created twice). *)
Definition directories (group : RegisteredGroup) : list string :=
  [ path_join [GROUPS_DIR; folder group];
    path_join [GROUPS_DIR; folder group];
    path_join [path_join [DATA_DIR; "ipc"; folder group]; "messages"];
    path_join [path_join [DATA_DIR; "ipc"; folder group]; "tasks"];
    path_join [DATA_DIR; "sessions"; folder group; ".claude"];
    path_join [GROUPS_DIR; folder group; "logs"] ].

(** Texts without white space. *)
Fixpoint solid (s : string) : bool :=
  match s with
  | EmptyString => true
  | String c s' => negb (JS.isWhiteSpace c) && solid s'
  end.

(** The names [buildAgentEnv] assigns. *)
Definition assignedNames : list string :=
  ["WORKSPACE_GROUP"; "WORKSPACE_GLOBAL"; "WORKSPACE_IPC"; "CLAUDE_CONFIG_DIR";
   "WORKSPACE_PROJECT"].

(** The promise is pending while the timer is, a signal has been sent at
    most once, and only to settle the promise with the timeout error. *)
Definition killInv (st : State) : Prop :=
  (timerPending st = true -> settled st = None /\ kills (effects st) = 0%nat)
  /\ (kills (effects st) <= 1)%nat
  /\ (kills (effects st) = 1%nat -> settled st = Some (errorOutput timeoutMessage)).

(** What a caller can receive: one of the runner's error results, or a
    value other than [null] that [JSON.parse] returned for the text
    extracted from some output. *)
Definition deliverable (v : JSON) : Prop :=
  isErrorOutput v
  \/ (exists out : string, JSON_parse (jsonLine out) = inl v /\ v <> JNull).

(** [tauto] on the propositions of the context only. *)
Ltac clear_data :=
  repeat match goal with
         | x : ?T |- _ =>
             lazymatch type of T with
             | Prop => fail
             | _ => clear x
             end
         end.
Ltac tauto_ := clear_data; tauto.

(** ** Facts about the string primitives *)

Lemma app_cons (c : ascii) (s t : string) :
  String c s +:+ t = String c (s +:+ t).
Proof. reflexivity. Qed.

Lemma app_empty_l (t : string) : "" +:+ t = t.
Proof. reflexivity. Qed.

Lemma app_empty_r (s : string) : s +:+ "" = s.
Proof. induction s as [|c s IH]; [reflexivity|]. rewrite app_cons, IH. reflexivity. Qed.

Lemma app_assoc_s (a b c : string) : (a +:+ b) +:+ c = a +:+ (b +:+ c).
Proof.
  induction a as [|x a IH]; [reflexivity|].
  rewrite !app_cons, IH. reflexivity.
Qed.

Lemma length_app (a b : string) :
  String.length (a +:+ b) = (String.length a + String.length b)%nat.
Proof.
  induction a as [|x a IH]; [reflexivity|].
  rewrite app_cons. simpl. rewrite IH. reflexivity.
Qed.

Lemma len_app (a b : string) : JS.len (a +:+ b) = JS.len a + JS.len b.
Proof. unfold JS.len. rewrite length_app. lia. Qed.

Lemma len_nonneg (s : string) : 0 <= JS.len s.
Proof. unfold JS.len. lia. Qed.

Lemma length_substring_0 (m : nat) (s : string) :
  (m <= String.length s)%nat -> String.length (String.substring 0 m s) = m.
Proof.
  revert s. induction m as [|m IH]; intros s Hm.
  - destruct s; reflexivity.
  - destruct s as [|c s]; simpl in Hm; [lia|].
    simpl. rewrite IH by lia. reflexivity.
Qed.

(** [chunk.slice(0, r)] keeps exactly [r] units when the chunk is longer. *)
Lemma len_slice_prefix (s : string) (r : Z) :
  0 <= r -> r < JS.len s -> JS.len (JS.slice s 0 r) = r.
Proof.
  intros H0 Hr. unfold JS.slice, JS.clampIndex, JS.len in *.
  destruct (Z.ltb_spec r 0) as [?|_]; [lia|].
  change (0 <? 0) with false. cbv iota.
  change (Z.to_nat 0) with 0%nat. rewrite Nat.min_0_l, Nat.sub_0_r.
  rewrite length_substring_0 by lia. lia.
Qed.

(** ** The stdout buffer *)

Lemma onStdoutData_inv (total chunk : string) (st : State) :
  0 <= AGENT_MAX_OUTPUT_SIZE ->
  bufferInv total st -> bufferInv (total +:+ chunk) (onStdoutData chunk st).
Proof.
  intros Hcap (Hle & Hclear & Hset). unfold onStdoutData.
  destruct (stdoutTruncated st) eqn:Ht.
  - destruct (Hset eq_refl) as [Hfull Hover].
    repeat split; [lia | congruence | lia |].
    rewrite len_app. pose proof (len_nonneg chunk). lia.
  - rewrite <- (Hclear eq_refl).
    destruct (Z.gtb_spec (JS.len chunk) (AGENT_MAX_OUTPUT_SIZE - JS.len (stdout st)))
      as [Hgt|Hfit]; unfold bufferInv, setStdout; simpl.
    + rewrite !len_app, len_slice_prefix by lia.
      split; [lia|]. split; [discriminate|]. intros _. lia.
    + rewrite len_app.
      split; [lia|]. split; [reflexivity|discriminate].
Qed.

Lemma concat_empty_cons (x : string) (l : list string) :
  String.concat "" (x :: l) = x +:+ String.concat "" l.
Proof. destruct l; simpl; [rewrite app_empty_r|]; reflexivity. Qed.

Lemma step_stdout_other (group : RegisteredGroup) (input : ContainerInput)
    (startTime : Z) (st st' : State) (ev : Event) :
  (forall chunk, ev <> StdoutData chunk) ->
  step group input startTime st ev = Returned st' ->
  stdout st' = stdout st /\ stdoutTruncated st' = stdoutTruncated st.
Proof.
  intros Hne Hstep. destruct ev as [chunk|chunk| |code now stamp stamp'|message];
    simpl in Hstep.
  - destruct (Hne chunk eq_refl).
  - injection Hstep as <-. unfold onStderrData.
    destruct (stderrTruncated st); [split; reflexivity|].
    destruct (_ >? _); split; reflexivity.
  - injection Hstep as <-. destruct (timerPending st); split; reflexivity.
  - unfold onClose in Hstep. destruct (fs_throws _); [discriminate|].
    destruct (nonZero code); injection Hstep as <-; split; reflexivity.
  - injection Hstep as <-. split; reflexivity.
Qed.

Lemma run_bufferInv (group : RegisteredGroup) (input : ContainerInput)
    (startTime : Z) (events : list Event) :
  0 <= AGENT_MAX_OUTPUT_SIZE ->
  forall (total : string) (st st' : State),
    bufferInv total st ->
    run group input startTime st events = Returned st' ->
    bufferInv (total +:+ written events) st'.
Proof.
  intros Hcap. induction events as [|ev rest IH]; intros total st st' Hinv Hrun.
  - simpl in Hrun. injection Hrun as <-.
    unfold written. simpl. rewrite app_empty_r. exact Hinv.
  - simpl in Hrun.
    destruct (step group input startTime st ev) as [st1|e st1] eqn:Hstep;
      [|discriminate].
    destruct ev as [chunk|chunk| |code now stamp stamp'|message].
    + simpl in Hstep. injection Hstep as <-.
      unfold written. simpl stdoutChunks. rewrite concat_empty_cons, <- app_assoc_s.
      apply (IH _ _ _ (onStdoutData_inv total chunk st Hcap Hinv) Hrun).
    + apply (IH total st1); [|exact Hrun].
      apply step_stdout_other in Hstep as [E1 E2]; [|intros ?; discriminate].
      unfold bufferInv. rewrite E1, E2. exact Hinv.
    + apply (IH total st1); [|exact Hrun].
      apply step_stdout_other in Hstep as [E1 E2]; [|intros ?; discriminate].
      unfold bufferInv. rewrite E1, E2. exact Hinv.
    + apply (IH total st1); [|exact Hrun].
      apply step_stdout_other in Hstep as [E1 E2]; [|intros ?; discriminate].
      unfold bufferInv. rewrite E1, E2. exact Hinv.
    + apply (IH total st1); [|exact Hrun].
      apply step_stdout_other in Hstep as [E1 E2]; [|intros ?; discriminate].
      unfold bufferInv. rewrite E1, E2. exact Hinv.
Qed.

(** Only the timer callback signals the child. *)
Lemma step_kill (group : RegisteredGroup) (input : ContainerInput)
    (startTime : Z) (st st' : State) (ev : Event) (sig : string) :
  step group input startTime st ev = Returned st' ->
  In (Kill sig) (effects st') ->
  In (Kill sig) (effects st) \/ ev = TimerFires.
Proof.
  intros Hstep Hin.
  destruct ev as [chunk|chunk| |code now stamp stamp'|message]; simpl in Hstep.
  - injection Hstep as <-. left. revert Hin. unfold onStdoutData.
    destruct (stdoutTruncated st); [tauto_|]. destruct (_ >? _); simpl; tauto_.
  - injection Hstep as <-. left. revert Hin. unfold onStderrData.
    destruct (stderrTruncated st); [tauto_|]. destruct (_ >? _); simpl; tauto_.
  - right. reflexivity.
  - left. unfold onClose in Hstep. destruct (fs_throws _); [discriminate|].
    destruct (nonZero code); injection Hstep as <-; simpl in Hin;
      rewrite !in_app_iff in Hin; simpl in Hin;
      destruct Hin as [[[H|[H|[]]]|[H|[]]]|[H|[]]]; try discriminate; exact H.
  - left. injection Hstep as <-. simpl in Hin.
    rewrite !in_app_iff in Hin; simpl in Hin.
    destruct Hin as [[H|[H|[]]]|[H|[]]]; try discriminate; exact H.
Qed.

Lemma run_kill (group : RegisteredGroup) (input : ContainerInput)
    (startTime : Z) (sig : string) (events : list Event) :
  forall st st' : State,
    run group input startTime st events = Returned st' ->
    In (Kill sig) (effects st') ->
    In (Kill sig) (effects st) \/ timerFired events = true.
Proof.
  induction events as [|ev rest IH]; intros st st' Hrun Hin; simpl in Hrun.
  - injection Hrun as <-. left. exact Hin.
  - destruct (step group input startTime st ev) as [st1|e st1] eqn:Hstep;
      [|discriminate].
    destruct (IH _ _ Hrun Hin) as [H|H].
    + destruct (step_kill _ _ _ _ _ _ _ Hstep H) as [H' | ->]; [left; exact H'|].
      right. reflexivity.
    + right. unfold timerFired in *. simpl. rewrite H. apply orb_true_r.
Qed.

Lemma spawned_no_kill (group : RegisteredGroup) (input : ContainerInput)
    (calls : list FsCall) (env : gmap string string) (sig : string) :
  ~ In (Kill sig) (effects (spawned group input calls env)).
Proof.
  simpl. rewrite in_app_iff, in_map_iff. simpl.
  intros [(c & H & _)|[H|[H|[H|[H|[]]]]]]; discriminate.
Qed.

Lemma spawned_bufferInv (group : RegisteredGroup) (input : ContainerInput)
    (calls : list FsCall) (env : gmap string string) :
  0 <= AGENT_MAX_OUTPUT_SIZE -> bufferInv "" (spawned group input calls env).
Proof.
  intros Hcap. unfold bufferInv. simpl.
  split; [exact Hcap|]. split; [reflexivity|discriminate].
Qed.

(** C2.  A worker writes more to stdout than [AGENT_MAX_OUTPUT_SIZE] (a
    size, so not negative).  Then after every prefix of the schedule the
    captured buffer is no longer than the cap; at the end the buffer is
    full and [stdoutTruncated] is set; the stdout listener leaves the
    state as it is for any further chunk; and unless the timer fired the
    child was never signalled. *)
Theorem stdout_capped (group : RegisteredGroup) (input : ContainerInput)
    (startTime : Z) (calls : list FsCall) (env : gmap string string)
    (events : list Event) (st : State) :
  0 <= AGENT_MAX_OUTPUT_SIZE ->
  run group input startTime (spawned group input calls env) events = Returned st ->
  AGENT_MAX_OUTPUT_SIZE < JS.len (written events) ->
  (forall (pre post : list Event) (st' : State),
      events = pre ++ post ->
      run group input startTime (spawned group input calls env) pre = Returned st' ->
      JS.len (stdout st') <= AGENT_MAX_OUTPUT_SIZE)
  /\ JS.len (stdout st) = AGENT_MAX_OUTPUT_SIZE
  /\ stdoutTruncated st = true
  /\ (forall chunk : string, onStdoutData chunk st = st)
  /\ (timerFired events = false -> forall sig : string, ~ In (Kill sig) (effects st)).
Proof.
  intros Hcap Hrun Hover.
  pose proof (run_bufferInv group input startTime events Hcap "" _ _
                (spawned_bufferInv group input calls env Hcap) Hrun)
    as (Hle & Hclear & Hset).
  rewrite app_empty_l in Hclear, Hset.
  assert (Ht : stdoutTruncated st = true).
  { destruct (stdoutTruncated st); [reflexivity|].
    rewrite (Hclear eq_refl) in Hle. lia. }
  split; [|split; [|split; [|split]]].
  - intros pre post st' _ Hpre.
    apply (run_bufferInv group input startTime pre Hcap "" _ _
             (spawned_bufferInv group input calls env Hcap) Hpre).
  - apply (Hset Ht).
  - exact Ht.
  - intros chunk. unfold onStdoutData. rewrite Ht. reflexivity.
  - intros Hno sig Hin.
    destruct (run_kill _ _ _ _ _ _ _ Hrun Hin) as [H|H].
    + exact (spawned_no_kill _ _ _ _ _ H).
    + congruence.
Qed.

(** ** Timer, promise and child signals *)

Ltac handlers :=
  unfold onClose, onTimeout, onError, onStdoutData, onStderrData,
    resolve, emit, clearTimeout, timerRan, setStdout, setStderr.

Lemma run_app (group : RegisteredGroup) (input : ContainerInput) (startTime : Z)
    (pre post : list Event) :
  forall st : State,
    run group input startTime st (pre ++ post) =
    match run group input startTime st pre with
    | Returned st' => run group input startTime st' post
    | Uncaught e st' => Uncaught e st'
    end.
Proof.
  induction pre as [|ev pre IH]; intros st; simpl; [reflexivity|].
  destruct (step group input startTime st ev); [apply IH|reflexivity].
Qed.

(** Stream data touches neither the promise, the timer nor the effects. *)
Lemma step_data (group : RegisteredGroup) (input : ContainerInput) (startTime : Z)
    (st : State) (ev : Event) :
  isData ev = true ->
  exists st', step group input startTime st ev = Returned st'
              /\ settled st' = settled st
              /\ timerPending st' = timerPending st
              /\ effects st' = effects st.
Proof.
  destruct ev as [chunk|chunk| | |]; try discriminate; intros _; simpl.
  - eexists; split; [reflexivity|]. handlers.
    destruct (stdoutTruncated st); [|destruct (_ >? _)]; repeat split.
  - eexists; split; [reflexivity|]. handlers.
    destruct (stderrTruncated st); [|destruct (_ >? _)]; repeat split.
Qed.

Lemma run_data (group : RegisteredGroup) (input : ContainerInput) (startTime : Z)
    (events : list Event) :
  dataOnly events = true ->
  forall st : State,
    exists st', run group input startTime st events = Returned st'
                /\ settled st' = settled st
                /\ timerPending st' = timerPending st
                /\ effects st' = effects st.
Proof.
  induction events as [|ev rest IH]; intros Hdata st; simpl.
  - exists st. repeat split.
  - simpl in Hdata. apply andb_true_iff in Hdata as [Hev Hrest].
    destruct (step_data group input startTime st ev Hev) as (st1 & -> & E1 & E2 & E3).
    destruct (IH Hrest st1) as (st2 & -> & F1 & F2 & F3).
    exists st2. split; [reflexivity|]. repeat split; congruence.
Qed.

(** A settled promise keeps its value whatever runs next. *)
Lemma step_settled (group : RegisteredGroup) (input : ContainerInput) (startTime : Z)
    (st : State) (ev : Event) (v : JSON) :
  settled st = Some v ->
  settled (stateOf (step group input startTime st ev)) = Some v.
Proof.
  intros Hv. destruct ev as [chunk|chunk| |code now stamp stamp'|message]; simpl.
  - handlers. destruct (stdoutTruncated st); [|destruct (_ >? _)]; exact Hv.
  - handlers. destruct (stderrTruncated st); [|destruct (_ >? _)]; exact Hv.
  - destruct (timerPending st); [|exact Hv]. handlers. simpl. rewrite Hv. reflexivity.
  - handlers. simpl. destruct (fs_throws _); [exact Hv|].
    destruct (nonZero code); simpl; rewrite Hv; reflexivity.
  - handlers. simpl. rewrite Hv. reflexivity.
Qed.

Lemma run_settled (group : RegisteredGroup) (input : ContainerInput) (startTime : Z)
    (events : list Event) (v : JSON) :
  forall st : State,
    settled st = Some v ->
    settled (stateOf (run group input startTime st events)) = Some v.
Proof.
  induction events as [|ev rest IH]; intros st Hv; simpl; [exact Hv|].
  pose proof (step_settled group input startTime st ev v Hv) as H.
  destruct (step group input startTime st ev) as [st1|e st1]; simpl in H |- *.
  - apply IH. exact H.
  - exact H.
Qed.

(** The step relation never spawns, and with the timer off it never
    signals and never turns the timer on again. *)
Lemma step_spawns (group : RegisteredGroup) (input : ContainerInput) (startTime : Z)
    (st : State) (ev : Event) :
  spawns (effects (stateOf (step group input startTime st ev))) = spawns (effects st).
Proof.
  assert (Hsnoc : forall (l : list Effect) (e : Effect),
             (forall a b c d, e <> Spawn a b c d) -> spawns (l ++ [e]) = spawns l).
  { intros l e He. induction l as [|x l IH]; simpl.
    - destruct e; try reflexivity. destruct (He _ _ _ _ eq_refl).
    - destruct x; simpl; rewrite IH; reflexivity. }
  destruct ev as [chunk|chunk| |code now stamp stamp'|message]; simpl.
  - handlers. destruct (stdoutTruncated st); [|destruct (_ >? _)]; reflexivity.
  - handlers. destruct (stderrTruncated st); [|destruct (_ >? _)]; reflexivity.
  - destruct (timerPending st); [|reflexivity]. handlers. simpl.
    rewrite !Hsnoc by (intros; discriminate). reflexivity.
  - handlers. simpl. destruct (fs_throws _); [|destruct (nonZero code)]; simpl;
      rewrite !Hsnoc by (intros; discriminate); reflexivity.
  - handlers. simpl. rewrite !Hsnoc by (intros; discriminate). reflexivity.
Qed.

Lemma run_spawns (group : RegisteredGroup) (input : ContainerInput) (startTime : Z)
    (events : list Event) :
  forall st : State,
    spawns (effects (stateOf (run group input startTime st events))) = spawns (effects st).
Proof.
  induction events as [|ev rest IH]; intros st; simpl; [reflexivity|].
  pose proof (step_spawns group input startTime st ev) as H.
  destruct (step group input startTime st ev) as [st1|e st1]; simpl in H |- *.
  - rewrite IH. exact H.
  - exact H.
Qed.

Lemma spawned_spawns (group : RegisteredGroup) (input : ContainerInput)
    (calls : list FsCall) (env : gmap string string) :
  spawns (effects (spawned group input calls env)) = 1%nat.
Proof. simpl. induction calls as [|c calls IH]; simpl; [reflexivity|exact IH]. Qed.

Lemma step_timer_off (group : RegisteredGroup) (input : ContainerInput) (startTime : Z)
    (st : State) (ev : Event) :
  timerPending st = false ->
  timerPending (stateOf (step group input startTime st ev)) = false
  /\ forall sig, In (Kill sig) (effects (stateOf (step group input startTime st ev))) ->
                 In (Kill sig) (effects st).
Proof.
  intros Hoff. destruct ev as [chunk|chunk| |code now stamp stamp'|message]; simpl.
  - handlers. destruct (stdoutTruncated st); [|destruct (_ >? _)]; simpl; tauto_.
  - handlers. destruct (stderrTruncated st); [|destruct (_ >? _)]; simpl; tauto_.
  - rewrite Hoff. tauto_.
  - handlers. simpl. destruct (fs_throws _); [|destruct (nonZero code)]; simpl;
      (split; [reflexivity|]); intros sig; rewrite !in_app_iff; simpl;
      intros H; decompose [or] H; try discriminate; tauto_.
  - handlers. simpl. split; [reflexivity|]. intros sig; rewrite !in_app_iff; simpl.
    intros H; decompose [or] H; try discriminate; tauto_.
Qed.

Lemma run_timer_off (group : RegisteredGroup) (input : ContainerInput) (startTime : Z)
    (events : list Event) :
  forall st : State,
    timerPending st = false ->
    timerPending (stateOf (run group input startTime st events)) = false
    /\ forall sig, In (Kill sig) (effects (stateOf (run group input startTime st events))) ->
                   In (Kill sig) (effects st).
Proof.
  induction events as [|ev rest IH]; intros st Hoff; simpl.
  - split; [exact Hoff|]. intros sig H. exact H.
  - destruct (step_timer_off group input startTime st ev Hoff) as [Hoff' Hk].
    destruct (step group input startTime st ev) as [st1|e st1]; simpl in Hoff', Hk |- *.
    + destruct (IH st1 Hoff') as [Hfinal Hkills]. split; [exact Hfinal|].
      intros sig H. apply Hk, Hkills, H.
    + split; [exact Hoff'|exact Hk].
Qed.

(** When the timer fires on a pending promise: SIGKILL is sent and the
    promise is settled with the timeout error. *)
Lemma timer_fires_pending (st : State) :
  timerPending st = true -> settled st = None ->
  settled (onTimeout st) = Some (errorOutput timeoutMessage)
  /\ effects (onTimeout st)
     = effects st ++ [Kill "SIGKILL"; Resolve (errorOutput timeoutMessage)]
  /\ timerPending (onTimeout st) = false.
Proof.
  intros _ Hnone. handlers. simpl. rewrite Hnone, <- app_assoc. repeat split.
Qed.

Lemma timeout_after_data (group : RegisteredGroup) (input : ContainerInput)
    (startTime : Z) (calls : list FsCall) (env : gmap string string)
    (pre : list Event) :
  dataOnly pre = true ->
  exists st,
    run group input startTime (spawned group input calls env) (pre ++ [TimerFires])
    = Returned st
    /\ settled st = Some (errorOutput timeoutMessage)
    /\ effects st = effects (spawned group input calls env)
                    ++ [Kill "SIGKILL"; Resolve (errorOutput timeoutMessage)]
    /\ timerPending st = false.
Proof.
  intros Hdata.
  destruct (run_data group input startTime pre Hdata (spawned group input calls env))
    as (st1 & Hrun & E1 & E2 & E3).
  rewrite run_app, Hrun. simpl. rewrite E2. simpl.
  destruct (timer_fires_pending st1) as (F1 & F2 & F3); [exact E2|exact E1|].
  eexists; split; [reflexivity|]. rewrite F1, F2, F3, E3. repeat split.
Qed.

(** C10.  The promise settles once.  While only stream data has arrived it
    is pending; when the timer then fires the caller receives the timeout
    error; and whatever follows, the [close] listener and its second call
    of [resolve] included, the value the caller holds stays the timeout
    error.  More generally a settled promise keeps its value under every
    continuation of the schedule. *)
Theorem timeout_result_is_final (group : RegisteredGroup) (input : ContainerInput)
    (startTime : Z) (calls : list FsCall) (env : gmap string string)
    (pre post : list Event) :
  dataOnly pre = true ->
  let st0 := spawned group input calls env in
  settled (stateOf (run group input startTime st0 pre)) = None
  /\ settled (stateOf (run group input startTime st0 (pre ++ [TimerFires])))
     = Some (errorOutput timeoutMessage)
  /\ settled (stateOf (run group input startTime st0 (pre ++ [TimerFires] ++ post)))
     = Some (errorOutput timeoutMessage)
  /\ (forall (st : State) (v : JSON) (events : list Event),
         settled st = Some v ->
         settled (stateOf (run group input startTime st events)) = Some v).
Proof.
  intros Hdata st0.
  destruct (run_data group input startTime pre Hdata st0) as (st1 & Hrun & E1 & _).
  destruct (timeout_after_data group input startTime calls env pre Hdata)
    as (st2 & Hfire & F1 & _).
  fold st0 in Hfire.
  split; [rewrite Hrun; exact E1|].
  split; [rewrite Hfire; exact F1|].
  split.
  - rewrite app_assoc, run_app, Hfire. apply run_settled. exact F1.
  - intros st v events Hv. apply run_settled. exact Hv.
Qed.

(** C5 (as amended).  When the timer fires after stream data only, the
    child is sent SIGKILL and the promise is settled at once with the
    timeout error, before any [close] event has been seen; whatever follows
    the caller keeps that result, and no second process is ever spawned. *)
Theorem timeout_kills_and_resolves (group : RegisteredGroup) (input : ContainerInput)
    (startTime : Z) (calls : list FsCall) (env : gmap string string)
    (pre post : list Event) :
  dataOnly pre = true ->
  let st0 := spawned group input calls env in
  let fired := stateOf (run group input startTime st0 (pre ++ [TimerFires])) in
  let final := stateOf (run group input startTime st0 (pre ++ [TimerFires] ++ post)) in
  effects fired
  = effects st0 ++ [Kill "SIGKILL"; Resolve (errorOutput timeoutMessage)]
  /\ settled fired = Some (errorOutput timeoutMessage)
  /\ exitObserved (pre ++ [TimerFires]) = false
  /\ settled final = Some (errorOutput timeoutMessage)
  /\ spawns (effects final) = 1%nat.
Proof.
  intros Hdata st0 fired final.
  destruct (timeout_after_data group input startTime calls env pre Hdata)
    as (st2 & Hfire & F1 & F2 & _).
  fold st0 in Hfire, F2. subst fired final.
  rewrite Hfire. change (stateOf (Returned st2)) with st2.
  split; [exact F2|]. split; [exact F1|]. split; [|split].
  - unfold exitObserved. rewrite existsb_app. simpl. rewrite orb_false_r.
    clear -Hdata. induction pre as [|ev pre IH]; [reflexivity|].
    simpl in Hdata |- *. apply andb_true_iff in Hdata as [Hev Hpre].
    rewrite (IH Hpre). destruct ev; try discriminate; reflexivity.
  - rewrite app_assoc, run_app, Hfire. apply run_settled. exact F1.
  - rewrite run_spawns. apply spawned_spawns.
Qed.

(** C6 (as amended).  The executor arms the timer before any event can be
    delivered.  When the child cannot be started, the [error] listener
    cancels that timer and settles the promise with the spawn error; from
    then on the timer never runs, so no signal is ever sent, and the caller
    keeps the spawn error. *)
Theorem spawn_error_cancels_timer (group : RegisteredGroup) (input : ContainerInput)
    (startTime : Z) (calls : list FsCall) (env : gmap string string)
    (message : string) (post : list Event) :
  let st0 := spawned group input calls env in
  let failed := onError message st0 in
  let final := stateOf (run group input startTime st0 (ChildError message :: post)) in
  timerPending st0 = true
  /\ In (SetTimeout AGENT_TIMEOUT) (effects st0)
  /\ effects failed
     = effects st0
       ++ [ClearTimeout; Resolve (errorOutput ("Agent spawn error: " +:+ message))]
  /\ timerPending failed = false
  /\ settled final = Some (errorOutput ("Agent spawn error: " +:+ message))
  /\ timerPending final = false
  /\ (forall sig : string, ~ In (Kill sig) (effects final)).
Proof.
  intros st0 failed final.
  split; [reflexivity|].
  split; [simpl; rewrite in_app_iff; right; simpl; tauto_|].
  split; [subst failed; handlers; simpl; rewrite <- !app_assoc; reflexivity|].
  split; [reflexivity|].
  subst final. simpl run. fold failed.
  destruct (run_timer_off group input startTime post failed eq_refl) as [Hoff Hkills].
  split; [|split].
  - apply run_settled. reflexivity.
  - exact Hoff.
  - intros sig Hin. apply Hkills in Hin.
    subst failed. revert Hin. handlers. simpl. rewrite !in_app_iff, in_map_iff. simpl.
    intros H. decompose [or] H; try discriminate; try tauto_.
    destruct H0 as (c & Hc & _). discriminate.
Qed.

(** ** The outcome of an invocation *)

Section HealthyFs.

Hypothesis fs_ok : forall c : FsCall, fs_throws c = None.

Lemma prepare_ok (group : RegisteredGroup) (input : ContainerInput) :
  exists (calls : list FsCall) (env : gmap string string),
    prepare group input = (calls, Normal env).
Proof.
  unfold prepare, buildAgentEnv, mkdirSync, fsCall.
  rewrite !fs_ok. simpl. eexists _, _. reflexivity.
Qed.

Lemma step_ok (group : RegisteredGroup) (input : ContainerInput) (startTime : Z)
    (st : State) (ev : Event) :
  exists st', step group input startTime st ev = Returned st'.
Proof.
  destruct ev; simpl; try (eexists; reflexivity).
  unfold onClose. rewrite fs_ok. destruct (nonZero code); eexists; reflexivity.
Qed.

Lemma run_ok (group : RegisteredGroup) (input : ContainerInput) (startTime : Z)
    (events : list Event) :
  forall st : State, exists st', run group input startTime st events = Returned st'.
Proof.
  induction events as [|ev rest IH]; intros st; simpl; [eexists; reflexivity|].
  destruct (step_ok group input startTime st ev) as [st1 ->]. apply IH.
Qed.

End HealthyFs.

(** What the first event other than stream data settles the promise with,
    given the closure state at that moment. *)
Lemma first_decisive_event (group : RegisteredGroup) (input : ContainerInput)
    (startTime : Z) (st : State) (ev : Event) :
  settled st = None -> timerPending st = true ->
  settled (stateOf (step group input startTime st ev)) =
  match ev with
  | StdoutData _ | StderrData _ => None
  | TimerFires => Some (errorOutput timeoutMessage)
  | ChildError message => Some (errorOutput ("Agent spawn error: " +:+ message))
  | ChildClose code now stamp stamp' =>
      match step group input startTime st ev with
      | Uncaught _ _ => None
      | Returned _ =>
          if nonZero code then Some (errorOutput (exitMessage code (stderr st)))
          else Some (parseAgentOutput (stdout st))
      end
  end.
Proof.
  intros Hnone Hon. destruct ev as [chunk|chunk| |code now stamp stamp'|message]; simpl.
  - handlers. destruct (stdoutTruncated st); [|destruct (_ >? _)]; exact Hnone.
  - handlers. destruct (stderrTruncated st); [|destruct (_ >? _)]; exact Hnone.
  - rewrite Hon. handlers. simpl. rewrite Hnone. reflexivity.
  - handlers. simpl. destruct (fs_throws _); [exact Hnone|].
    destruct (nonZero code); simpl; rewrite Hnone; reflexivity.
  - handlers. simpl. rewrite Hnone. reflexivity.
Qed.

(** Every value passed to [resolve] by the parse block is an error result
    or a value [JSON.parse] returned, other than [null]. *)
Lemma parseAgentOutput_cases (out : string) :
  match JSON_parse (jsonLine out) with
  | inr message =>
      parseAgentOutput out = errorOutput ("Failed to parse agent output: " +:+ message)
  | inl JNull =>
      parseAgentOutput out
      = errorOutput ("Failed to parse agent output: " +:+ nullStatusMessage)
  | inl v => parseAgentOutput out = v
  end.
Proof.
  unfold parseAgentOutput, parseFailure.
  destruct (JSON_parse (jsonLine out)) as [[]|]; reflexivity.
Qed.

(** C1 (as amended).  On a file system whose calls succeed, the promise of
    [runContainerAgent] is never rejected and no listener lets an exception
    escape.  It is pending exactly as long as only stream data has arrived,
    and the first other event settles it: a spawn error, the timeout, and a
    non-zero (or [null]) exit code each with [{status: 'error', result:
    null, error: <message>}]; a zero exit code with the same shape of error
    when [JSON.parse] throws on the extracted text or returns [null], and
    otherwise with the parsed value as it is, whatever its shape. *)
Theorem invocation_settles (group : RegisteredGroup) (input : ContainerInput)
    (startTime : Z) (events : list Event) :
  (forall c : FsCall, fs_throws c = None) ->
  exists (calls : list FsCall) (env : gmap string string) (st : State),
    prepare group input = (calls, Normal env)
    /\ runContainerAgent group input startTime events = Running st
    /\ (settled st = None <-> dataOnly events = true)
    /\ forall (pre post : list Event) (ev : Event) (before : State),
        events = pre ++ ev :: post ->
        dataOnly pre = true ->
        run group input startTime (spawned group input calls env) pre = Returned before ->
        match ev with
        | StdoutData _ | StderrData _ => True
        | TimerFires => settled st = Some (errorOutput timeoutMessage)
        | ChildError message =>
            settled st = Some (errorOutput ("Agent spawn error: " +:+ message))
        | ChildClose code _ _ _ =>
            if nonZero code
            then settled st = Some (errorOutput (exitMessage code (stderr before)))
            else match JSON_parse (jsonLine (stdout before)) with
                 | inr message =>
                     settled st
                     = Some (errorOutput ("Failed to parse agent output: " +:+ message))
                 | inl JNull =>
                     settled st
                     = Some (errorOutput
                               ("Failed to parse agent output: " +:+ nullStatusMessage))
                 | inl v => settled st = Some v
                 end
        end.
Proof.
  intros fs_ok. unfold runContainerAgent.
  destruct (prepare_ok fs_ok group input) as (calls & env & ->).
  destruct (run_ok fs_ok group input startTime events (spawned group input calls env))
    as [st Hrun].
  exists calls, env, st. rewrite Hrun. split; [reflexivity|]. split; [reflexivity|].
  assert (Hdecisive : forall pre ev post before,
             events = pre ++ ev :: post -> dataOnly pre = true ->
             run group input startTime (spawned group input calls env) pre
             = Returned before ->
             settled before = None /\ timerPending before = true
             /\ settled st
                = match settled (stateOf (step group input startTime before ev)) with
                  | Some v => Some v
                  | None => settled st
                  end).
  { intros pre ev post before -> Hdata Hpre.
    destruct (run_data group input startTime pre Hdata (spawned group input calls env))
      as (st1 & Hrun1 & E1 & E2 & _).
    rewrite Hpre in Hrun1. injection Hrun1 as <-.
    split; [exact E1|]. split; [exact E2|].
    rewrite run_app, Hpre in Hrun. simpl in Hrun.
    destruct (settled (stateOf (step group input startTime before ev))) as [v|] eqn:Hv;
      [|reflexivity].
    destruct (step group input startTime before ev) as [st2|e st2]; [|discriminate].
    pose proof (run_settled group input startTime post v st2 Hv) as H.
    rewrite Hrun in H. exact H. }
  split.
  - split.
    + intros Hnone. destruct (dataOnly events) eqn:Hd; [reflexivity|exfalso].
      assert (Hsplit : exists pre ev post,
                 events = pre ++ ev :: post /\ dataOnly pre = true /\ isData ev = false).
      { clear -Hd. induction events as [|ev rest IH]; [discriminate|].
        simpl in Hd. destruct (isData ev) eqn:Hev.
        - destruct (IH Hd) as (pre & ev' & post & -> & Hpre & Hev').
          exists (ev :: pre), ev', post. simpl. rewrite Hev, Hpre. repeat split. exact Hev'.
        - exists [], ev, rest. repeat split. exact Hev. }
      destruct Hsplit as (pre & ev & post & Hev & Hpre & Hnd).
      destruct (run_ok fs_ok group input startTime pre (spawned group input calls env))
        as [before Hbefore].
      destruct (Hdecisive pre ev post before Hev Hpre Hbefore) as (E1 & E2 & E3).
      rewrite (first_decisive_event group input startTime before ev E1 E2) in E3.
      destruct (step_ok fs_ok group input startTime before ev) as [st2 Hst2].
      rewrite Hst2 in E3.
      destruct ev; try discriminate; [| |]; try destruct (nonZero code); congruence.
    + intros Hd.
      destruct (run_data group input startTime events Hd (spawned group input calls env))
        as (st1 & Hrun1 & E1 & _).
      rewrite Hrun in Hrun1. injection Hrun1 as <-. exact E1.
  - intros pre post ev before Hev Hpre Hbefore.
    destruct (Hdecisive pre ev post before Hev Hpre Hbefore) as (E1 & E2 & E3).
    rewrite (first_decisive_event group input startTime before ev E1 E2) in E3.
    destruct (step_ok fs_ok group input startTime before ev) as [st2 Hst2].
    rewrite Hst2 in E3.
    destruct ev as [chunk|chunk| |code now stamp stamp'|message];
      [exact I|exact I|exact E3| |exact E3].
    destruct (nonZero code); [exact E3|].
    pose proof (parseAgentOutput_cases (stdout before)) as Hp.
    destruct (JSON_parse (jsonLine (stdout before))) as [[]|]; rewrite <- Hp; exact E3.
Qed.

(** Outside that proviso: a failing [mkdirSync] before the promise is
    created rejects the promise of the [async] function, and a failing
    write of the run log lets an exception escape the [close] listener. *)
Lemma mkdir_failure_rejects (group : RegisteredGroup) (input : ContainerInput)
    (startTime : Z) (events : list Event) (e : string) :
  fs_throws (MkdirSync (path_join [GROUPS_DIR; folder group])) = Some e ->
  runContainerAgent group input startTime events
  = Rejected e [MkdirSync (path_join [GROUPS_DIR; folder group])].
Proof.
  intros H. unfold runContainerAgent, prepare, mkdirSync, fsCall.
  rewrite H. reflexivity.
Qed.

Lemma log_failure_escapes (group : RegisteredGroup) (input : ContainerInput)
    (startTime : Z) (st : State) (code : option Z) (now : Z) (stamp stamp' : string) :
  (forall p data, fs_throws (WriteFileSync p data) = Some "ENOSPC") ->
  exists st',
    step group input startTime st (ChildClose code now stamp stamp')
    = Uncaught "ENOSPC" st'
    /\ settled st' = settled st.
Proof.
  intros H. simpl. unfold onClose. rewrite H. eexists. split; reflexivity.
Qed.

(** ** The worker's environment *)

Lemma buildAgentEnv_calls (group : RegisteredGroup) (main : bool) :
  (forall c : FsCall, fs_throws c = None) ->
  buildAgentEnv group main =
  ([ MkdirSync (path_join [GROUPS_DIR; folder group]);
     MkdirSync (path_join [path_join [DATA_DIR; "ipc"; folder group]; "messages"]);
     MkdirSync (path_join [path_join [DATA_DIR; "ipc"; folder group]; "tasks"]);
     MkdirSync (path_join [DATA_DIR; "sessions"; folder group; ".claude"]) ],
   Normal
     (let env : gmap string string :=
        <["CLAUDE_CONFIG_DIR" := path_join [DATA_DIR; "sessions"; folder group; ".claude"]]>
          (<["WORKSPACE_IPC" := path_join [DATA_DIR; "ipc"; folder group]]>
             (<["WORKSPACE_GLOBAL" := path_join [GROUPS_DIR; "global"]]>
                (<["WORKSPACE_GROUP" := path_join [GROUPS_DIR; folder group]]>
                   process_env))) in
      if main then <["WORKSPACE_PROJECT" := process_cwd]> env else env)).
Proof.
  intros fs_ok. unfold buildAgentEnv, mkdirSync, fsCall. rewrite !fs_ok. reflexivity.
Qed.

(** C9.  The environment handed to the worker maps [WORKSPACE_GROUP],
    [WORKSPACE_GLOBAL], [WORKSPACE_IPC] and [CLAUDE_CONFIG_DIR] to the
    paths built from the groups and data directories and the tenant's
    folder, whatever the host's own environment holds under these names.
    [WORKSPACE_PROJECT] is the project root for the main tenant; for any
    other tenant the entry is whatever the host's environment holds, so it
    is absent only if the host itself runs without it. *)
Theorem agent_env_entries (group : RegisteredGroup) (main : bool) :
  (forall c : FsCall, fs_throws c = None) ->
  exists env : gmap string string,
    snd (buildAgentEnv group main) = Normal env
    /\ env !! "WORKSPACE_GROUP" = Some (path_join [GROUPS_DIR; folder group])
    /\ env !! "WORKSPACE_GLOBAL" = Some (path_join [GROUPS_DIR; "global"])
    /\ env !! "WORKSPACE_IPC" = Some (path_join [DATA_DIR; "ipc"; folder group])
    /\ env !! "CLAUDE_CONFIG_DIR"
       = Some (path_join [DATA_DIR; "sessions"; folder group; ".claude"])
    /\ env !! "WORKSPACE_PROJECT"
       = (if main then Some process_cwd else process_env !! "WORKSPACE_PROJECT").
Proof.
  intros fs_ok. rewrite (buildAgentEnv_calls group main fs_ok).
  eexists. split; [reflexivity|]. cbv zeta.
  destruct main; repeat split;
    repeat (rewrite lookup_insert_eq || (rewrite lookup_insert_ne by discriminate));
    reflexivity.
Qed.

(** ** Snapshot files *)

Lemma writeTasksSnapshot_calls (owner : string) (main : bool) (tasks : list Task) :
  let dir := path_join [DATA_DIR; "ipc"; owner] in
  fst (writeTasksSnapshot owner main tasks) =
  MkdirSync dir ::
  match fs_throws (MkdirSync dir) with
  | Some _ => []
  | None =>
      [ WriteFileSync (path_join [dir; "current_tasks.json"])
          (JSON_stringify_pretty (JArr (map taskJSON (filteredTasks owner main tasks)))) ]
  end.
Proof.
  intros dir. unfold writeTasksSnapshot, mkdirSync, writeFileSync, fsCall. fold dir.
  destruct (fs_throws (MkdirSync dir)); reflexivity.
Qed.

Lemma writeGroupsSnapshot_calls (owner : string) (main : bool)
    (groups : list AvailableGroup) (registeredJids : gset string) (lastSync : string) :
  let dir := path_join [DATA_DIR; "ipc"; owner] in
  fst (writeGroupsSnapshot owner main groups registeredJids lastSync) =
  MkdirSync dir ::
  match fs_throws (MkdirSync dir) with
  | Some _ => []
  | None =>
      [ WriteFileSync (path_join [dir; "available_groups.json"])
          (JSON_stringify_pretty
             (JObj [("groups", JArr (map groupJSON (visibleGroups main groups)));
                    ("lastSync", JStr lastSync)])) ]
  end.
Proof.
  intros dir. unfold writeGroupsSnapshot, mkdirSync, writeFileSync, fsCall. fold dir.
  destruct (fs_throws (MkdirSync dir)); reflexivity.
Qed.

(** C7.  Both snapshot writers create the IPC directory and then call
    [writeFileSync] once, on the final name of the snapshot: no temporary
    file is written and [renameSync] is never called. *)
Theorem snapshots_written_in_place (owner : string) (main : bool)
    (tasks : list Task) (groups : list AvailableGroup)
    (registeredJids : gset string) (lastSync : string) :
  let dir := path_join [DATA_DIR; "ipc"; owner] in
  let tasksCalls := fst (writeTasksSnapshot owner main tasks) in
  let groupsCalls := fst (writeGroupsSnapshot owner main groups registeredJids lastSync) in
  (forall c, In c tasksCalls ->
     c = MkdirSync dir
     \/ exists data, c = WriteFileSync (path_join [dir; "current_tasks.json"]) data)
  /\ (forall c, In c groupsCalls ->
        c = MkdirSync dir
        \/ exists data, c = WriteFileSync (path_join [dir; "available_groups.json"]) data)
  /\ (forall a b, ~ In (RenameSync a b) (tasksCalls ++ groupsCalls)).
Proof.
  intros dir tasksCalls groupsCalls. subst tasksCalls groupsCalls.
  rewrite writeTasksSnapshot_calls, writeGroupsSnapshot_calls. fold dir.
  destruct (fs_throws (MkdirSync dir)); simpl.
  - repeat split; try (intros c [<-|[]]; left; reflexivity).
    intros a b [H|[H|[]]]; discriminate.
  - repeat split; try (intros c [<-|[<-|[]]]; [left; reflexivity|right; eexists; reflexivity]).
    intros a b [H|[H|[H|[H|[]]]]]; discriminate.
Qed.

Lemma filter_sublist {A : Type} (f : A -> bool) (l : list A) :
  sublist (List.filter f l) l.
Proof.
  induction l as [|x l IH]; simpl; [constructor|].
  destruct (f x); constructor; exact IH.
Qed.

(** C8.  For the main tenant the tasks snapshot lists every input task and
    the groups snapshot every input group.  For any other tenant the tasks
    snapshot lists exactly the input tasks whose [groupFolder] is the
    tenant's folder, in their order, and the groups list is empty.  These
    lists are what is written, as JSON, to [current_tasks.json] and to
    [available_groups.json] in the tenant's IPC directory. *)
Theorem snapshot_views (owner : string) (main : bool) (tasks : list Task)
    (groups : list AvailableGroup) (registeredJids : gset string) (lastSync : string) :
  let dir := path_join [DATA_DIR; "ipc"; owner] in
  fs_throws (MkdirSync dir) = None ->
  filteredTasks owner true tasks = tasks
  /\ visibleGroups true groups = groups
  /\ (forall t, In t (filteredTasks owner false tasks)
                <-> In t tasks /\ task_groupFolder t = owner)
  /\ sublist (filteredTasks owner false tasks) tasks
  /\ visibleGroups false groups = []
  /\ fst (writeTasksSnapshot owner main tasks)
     = [ MkdirSync dir;
         WriteFileSync (path_join [dir; "current_tasks.json"])
           (JSON_stringify_pretty (JArr (map taskJSON (filteredTasks owner main tasks)))) ]
  /\ fst (writeGroupsSnapshot owner main groups registeredJids lastSync)
     = [ MkdirSync dir;
         WriteFileSync (path_join [dir; "available_groups.json"])
           (JSON_stringify_pretty
              (JObj [("groups", JArr (map groupJSON (visibleGroups main groups)));
                     ("lastSync", JStr lastSync)])) ].
Proof.
  intros dir Hdir.
  split; [reflexivity|]. split; [reflexivity|]. split; [|split; [|split; [|split]]].
  - intros t. unfold filteredTasks. rewrite filter_In, String.eqb_eq. reflexivity.
  - apply filter_sublist.
  - reflexivity.
  - rewrite writeTasksSnapshot_calls. fold dir. rewrite Hdir. reflexivity.
  - rewrite writeGroupsSnapshot_calls. fold dir. rewrite Hdir. reflexivity.
Qed.

(** ** White space and lines *)

Lemma trimEnd_cons (c : ascii) (s : string) :
  JS.trimEnd (String c s) =
  match JS.trimEnd s with
  | EmptyString => if JS.isWhiteSpace c then EmptyString else String c EmptyString
  | t => String c t
  end.
Proof. reflexivity. Qed.

Lemma trimEnd_blank (s : string) : JS.trimEnd s = "" <-> blank s = true.
Proof.
  induction s as [|c s IH]; simpl; [tauto_|].
  destruct (JS.trimEnd s) as [|d t].
  - destruct (JS.isWhiteSpace c); simpl; [tauto_|].
    split; intros H; discriminate.
  - rewrite andb_true_iff. split; [discriminate|].
    intros [_ H]. apply IH in H. discriminate.
Qed.

Lemma trimStart_blank (s : string) : blank s = true -> JS.trimStart s = "".
Proof.
  induction s as [|c s IH]; simpl; [reflexivity|].
  destruct (JS.isWhiteSpace c); simpl; [exact IH|discriminate].
Qed.



Lemma trimEnd_app_blank (s w : string) :
  blank w = true -> JS.trimEnd (s +:+ w) = JS.trimEnd s.
Proof.
  intros Hw. induction s as [|c s IH].
  - rewrite app_empty_l. apply trimEnd_blank. exact Hw.
  - rewrite app_cons, !trimEnd_cons, IH. reflexivity.
Qed.

Lemma trim_app_blank (s w : string) :
  blank w = true -> JS.trim (s +:+ w) = JS.trim s.
Proof.
  intros Hw. unfold JS.trim. induction s as [|c s IH].
  - rewrite app_empty_l, (trimStart_blank w Hw). reflexivity.
  - rewrite app_cons. simpl. destruct (JS.isWhiteSpace c); [exact IH|].
    rewrite <- app_cons. apply trimEnd_app_blank. exact Hw.
Qed.

(** The text between two marker lines, trimmed. *)
Lemma trim_between_lines (s : string) : JS.trim (JS.nl +:+ s +:+ JS.nl) = JS.trim s.
Proof.
  change (JS.nl +:+ s +:+ JS.nl) with (String JS.LF (s +:+ JS.nl)).
  unfold JS.trim at 1. simpl JS.trimStart. apply trim_app_blank. reflexivity.
Qed.















(** ** Markers *)

Lemma length_substring (s : string) :
  forall i k : nat,
    String.length (String.substring i k s) = Nat.min k (String.length s - i).
Proof.
  induction s as [|c s IH]; intros i k.
  - destruct i, k; reflexivity.
  - destruct i as [|i].
    + destruct k as [|k]; [reflexivity|]. simpl. rewrite IH, Nat.sub_0_r. reflexivity.
    + simpl. apply IH.
Qed.

Lemma occursAt_bound (m s : string) (i : nat) :
  m <> "" -> occursAt m s i -> (i + String.length m <= String.length s)%nat.
Proof.
  intros Hm Hocc. unfold occursAt in Hocc.
  apply (f_equal String.length) in Hocc. rewrite length_substring in Hocc.
  destruct m as [|c m]; [congruence|]. cbn [String.length] in Hocc |- *. lia.
Qed.

Lemma indexOf_found (m s : string) (i : nat) :
  String.index 0 m s = Some i -> JS.indexOf s m = Z.of_nat i /\ firstAt m s i.
Proof.
  intros H. unfold JS.indexOf. rewrite H. split; [reflexivity|]. split.
  - apply (index_correct1 0). exact H.
  - intros k Hk. apply (index_correct2 0 i); [exact H|lia|exact Hk].
Qed.

Lemma firstAt_index (m s : string) (i : nat) :
  m <> "" -> firstAt m s i -> String.index 0 m s = Some i.
Proof.
  intros Hm [Hocc Hmin]. destruct (String.index 0 m s) as [i'|] eqn:E.
  - destruct (indexOf_found m s i' E) as [_ [Hocc' Hmin']].
    destruct (Nat.lt_trichotomy i i') as [Hlt|[->|Hgt]]; [|reflexivity|].
    + destruct (Hmin' i Hlt Hocc).
    + destruct (Hmin i' Hgt Hocc').
  - destruct (index_correct3 0 i m s E Hm ltac:(lia) Hocc).
Qed.

Lemma slice_nat (s : string) (a b : nat) :
  (a <= String.length s)%nat -> (b <= String.length s)%nat ->
  JS.slice s (Z.of_nat a) (Z.of_nat b) = String.substring a (b - a) s.
Proof.
  intros Ha Hb. unfold JS.slice, JS.clampIndex.
  destruct (Z.ltb_spec (Z.of_nat a) 0); [lia|].
  destruct (Z.ltb_spec (Z.of_nat b) 0); [lia|].
  rewrite !Nat2Z.id, !Nat.min_l by lia. reflexivity.
Qed.

Lemma START_not_empty : OUTPUT_START_MARKER <> "".
Proof. discriminate. Qed.

Lemma END_not_empty : OUTPUT_END_MARKER <> "".
Proof. discriminate. Qed.

(** The marker branch is taken exactly when both markers occur and the
    first end marker starts after the first start marker. *)
Lemma jsonLine_markers (out : string) (i j : nat) :
  firstAt OUTPUT_START_MARKER out i -> firstAt OUTPUT_END_MARKER out j -> (i < j)%nat ->
  jsonLine out =
  JS.trim (String.substring (i + String.length OUTPUT_START_MARKER)
             (j - (i + String.length OUTPUT_START_MARKER)) out).
Proof.
  intros Hi Hj Hlt. unfold jsonLine, JS.indexOf.
  rewrite (firstAt_index _ _ _ START_not_empty Hi), (firstAt_index _ _ _ END_not_empty Hj).
  destruct (Z.eqb_spec (Z.of_nat i) (-1)); [lia|].
  destruct (Z.eqb_spec (Z.of_nat j) (-1)); [lia|].
  destruct (Z.gtb_spec (Z.of_nat j) (Z.of_nat i)); [|lia].
  cbn [negb andb]. unfold JS.len. rewrite <- Nat2Z.inj_add.
  pose proof (occursAt_bound _ _ _ START_not_empty (proj1 Hi)).
  pose proof (occursAt_bound _ _ _ END_not_empty (proj1 Hj)).
  rewrite slice_nat by lia. reflexivity.
Qed.



(** ** Marker lines among log lines *)

Lemma index_cons (m : string) (c : ascii) (s : string) :
  String.index 0 m (String c s) =
  if String.prefix m (String c s) then Some 0%nat
  else option_map S (String.index 0 m s).
Proof.
  simpl. destruct m as [|a m]; [reflexivity|].
  destruct (ascii_dec a c); [destruct (String.prefix m s)|];
    destruct (String.index 0 (String a m) s); reflexivity.
Qed.

Lemma index_empty (m : string) : m <> "" -> String.index 0 m "" = None.
Proof. destruct m; [congruence|reflexivity]. Qed.

(** A marker without line feed that starts before a line feed ends
    before it. *)
Lemma prefix_before_nl (m u v : string) :
  mentions JS.LF m = false ->
  String.prefix m (u +:+ JS.nl +:+ v) = true -> String.prefix m u = true.
Proof.
  revert u. induction m as [|a m IH]; intros u Hm H; [destruct u; reflexivity|].
  simpl in Hm. apply orb_false_iff in Hm as [Ha Hm].
  destruct u as [|b u].
  - rewrite app_empty_l in H. change (JS.nl +:+ v) with (String JS.LF v) in H.
    simpl in H. destruct (ascii_dec a JS.LF) as [->|_]; [|discriminate].
    rewrite Ascii.eqb_refl in Ha. discriminate.
  - rewrite app_cons in H. simpl in H |- *.
    destruct (ascii_dec a b); [|discriminate]. apply IH; assumption.
Qed.

Lemma free_cons (m : string) (c : ascii) (l : string) :
  free m (String c l) -> String.prefix m (String c l) = false /\ free m l.
Proof.
  unfold free. rewrite index_cons.
  destruct (String.prefix m (String c l)); [discriminate|].
  destruct (String.index 0 m l); [discriminate|]. split; reflexivity.
Qed.

Lemma index_skip_line (m l rest : string) :
  mentions JS.LF m = false -> m <> "" -> free m l ->
  String.index 0 m (l +:+ JS.nl +:+ rest)
  = option_map (fun i => String.length l + 1 + i)%nat (String.index 0 m rest).
Proof.
  intros Hm Hne. induction l as [|c l IH]; intros Hfree.
  - rewrite app_empty_l. change (JS.nl +:+ rest) with (String JS.LF rest).
    rewrite index_cons.
    destruct (String.prefix m (String JS.LF rest)) eqn:Hp.
    + exfalso. destruct m as [|a m]; [congruence|]. simpl in Hp, Hm.
      destruct (ascii_dec a JS.LF) as [->|_]; [|discriminate].
      rewrite Ascii.eqb_refl in Hm. discriminate.
    + destruct (String.index 0 m rest); reflexivity.
  - destruct (free_cons m c l Hfree) as [Hp Hl].
    rewrite app_cons, index_cons.
    destruct (String.prefix m (String c (l +:+ JS.nl +:+ rest))) eqn:Hq.
    + rewrite <- app_cons in Hq. apply prefix_before_nl in Hq; [congruence|exact Hm].
    + rewrite (IH Hl). destruct (String.index 0 m rest); reflexivity.
Qed.

Lemma unlines_cons (l : string) (lines : list string) :
  unlines (l :: lines) = l +:+ JS.nl +:+ unlines lines.
Proof. unfold unlines. simpl map. rewrite concat_empty_cons, app_assoc_s. reflexivity. Qed.

Lemma index_skip_lines (m rest : string) (lines : list string) :
  mentions JS.LF m = false -> m <> "" -> Forall (free m) lines ->
  String.index 0 m (unlines lines +:+ rest)
  = option_map (fun i => String.length (unlines lines) + i)%nat (String.index 0 m rest).
Proof.
  intros Hm Hne Hall. induction Hall as [|l lines Hl _ IH].
  - unfold unlines. simpl. rewrite app_empty_l.
    destruct (String.index 0 m rest); reflexivity.
  - rewrite unlines_cons, !app_assoc_s, (index_skip_line m l _ Hm Hne Hl), IH.
    rewrite !length_app. change (String.length JS.nl) with 1%nat.
    destruct (String.index 0 m rest); simpl; [f_equal; lia|reflexivity].
Qed.

Lemma prefix_app (m rest : string) : String.prefix m (m +:+ rest) = true.
Proof.
  induction m as [|a m IH]; [destruct rest; reflexivity|].
  rewrite app_cons. simpl. destruct (ascii_dec a a); [exact IH|congruence].
Qed.

Lemma index_here (m rest : string) : m <> "" -> String.index 0 m (m +:+ rest) = Some 0%nat.
Proof.
  intros Hne. destruct m as [|a m]; [congruence|].
  rewrite app_cons, index_cons, <- app_cons, prefix_app. reflexivity.
Qed.

Lemma substring_skip (a b : string) (n : nat) :
  String.substring (String.length a) n (a +:+ b) = String.substring 0 n b.
Proof. induction a as [|c a IH]; [reflexivity|]. rewrite app_cons. simpl. exact IH. Qed.

Lemma substring_prefix (b c : string) :
  String.substring 0 (String.length b) (b +:+ c) = b.
Proof.
  induction b as [|x b IH]; [destruct c; reflexivity|].
  rewrite app_cons. simpl. rewrite IH. reflexivity.
Qed.

(** The text extracted from an output in which the payload stands on a
    line of its own between the two marker lines. *)
Lemma jsonLine_between_marker_lines (before : list string) (json after : string) :
  Forall (fun l => free OUTPUT_START_MARKER l /\ free OUTPUT_END_MARKER l) before ->
  free OUTPUT_END_MARKER json ->
  jsonLine (unlines before +:+ OUTPUT_START_MARKER +:+ JS.nl +:+ json +:+ JS.nl
            +:+ OUTPUT_END_MARKER +:+ JS.nl +:+ after)
  = JS.trim json.
Proof.
  intros Hbefore Hjson.
  set (pre := unlines before).
  set (out := pre +:+ OUTPUT_START_MARKER +:+ JS.nl +:+ json +:+ JS.nl
              +:+ OUTPUT_END_MARKER +:+ JS.nl +:+ after).
  assert (Hs : String.index 0 OUTPUT_START_MARKER out = Some (String.length pre)).
  { subst out pre. rewrite index_skip_lines; [|reflexivity|discriminate|].
    - rewrite index_here by discriminate. simpl. f_equal. lia.
    - eapply Forall_impl; [exact Hbefore|]. intros l [H _]. exact H. }
  assert (He : String.index 0 OUTPUT_END_MARKER out
               = Some (String.length pre + String.length OUTPUT_START_MARKER
                       + (String.length json + 2))%nat).
  { subst out pre. rewrite index_skip_lines; [|reflexivity|discriminate|].
    - rewrite (index_skip_line OUTPUT_END_MARKER OUTPUT_START_MARKER);
        [|reflexivity|discriminate|reflexivity].
      rewrite (index_skip_line OUTPUT_END_MARKER json);
        [|reflexivity|discriminate|exact Hjson].
      rewrite index_here by discriminate. simpl. f_equal. lia.
    - eapply Forall_impl; [exact Hbefore|]. intros l [_ H]. exact H. }
  rewrite (jsonLine_markers out _ _ (proj2 (indexOf_found _ _ _ Hs))
             (proj2 (indexOf_found _ _ _ He))) by (simpl; lia).
  replace (String.length pre + String.length OUTPUT_START_MARKER
           + (String.length json + 2)
           - (String.length pre + String.length OUTPUT_START_MARKER))%nat
    with (String.length (JS.nl +:+ json +:+ JS.nl))
    by (rewrite !length_app; simpl; lia).
  rewrite <- length_app. subst out.
  rewrite <- (app_assoc_s pre OUTPUT_START_MARKER), substring_skip.
  rewrite <- (app_assoc_s json JS.nl _), <- (app_assoc_s JS.nl (json +:+ JS.nl) _).
  rewrite substring_prefix. apply trim_between_lines.
Qed.

(** C4 (as amended).  Take a worker result whose serialization is read
    back by [JSON.parse], has no white space at its ends and does not
    contain the end marker.  If the captured stdout consists of log lines
    none of which contains a marker, the start marker line, the
    serialization on a line, the end marker line, and then any text at all,
    the parse block yields exactly that result. *)
Theorem marked_result_recovered (r : ContainerOutput) (before : list string)
    (after : string) :
  let json := JSON_stringify (outputJSON r) in
  JSON_parse json = inl (outputJSON r) ->
  JS.trim json = json ->
  free OUTPUT_END_MARKER json ->
  Forall (fun l => free OUTPUT_START_MARKER l /\ free OUTPUT_END_MARKER l) before ->
  parseAgentOutput
    (unlines before +:+ OUTPUT_START_MARKER +:+ JS.nl +:+ json +:+ JS.nl
     +:+ OUTPUT_END_MARKER +:+ JS.nl +:+ after)
  = outputJSON r.
Proof.
  intros json Hparse Htrim Hfree Hbefore. unfold parseAgentOutput.
  rewrite (jsonLine_between_marker_lines before json after Hbefore Hfree).
  rewrite Htrim, Hparse. reflexivity.
Qed.

(** ** Capture buffers hold the head of the decoded chunks *)

Lemma substring_all (s : string) (n : nat) :
  (String.length s <= n)%nat -> String.substring 0 n s = s.
Proof.
  revert n. induction s as [|c s IH]; intros n Hn.
  - destruct n; reflexivity.
  - destruct n as [|n]; simpl in Hn; [lia|]. simpl. rewrite IH by lia. reflexivity.
Qed.

Lemma substring_app_l (a b : string) (n : nat) :
  (n <= String.length a)%nat -> String.substring 0 n (a +:+ b) = String.substring 0 n a.
Proof.
  revert n. induction a as [|c a IH]; intros n Hn.
  - simpl in Hn. replace n with 0%nat by lia. rewrite app_empty_l.
    destruct b; reflexivity.
  - rewrite app_cons. destruct n as [|n]; [reflexivity|].
    simpl in Hn |- *. rewrite IH by lia. reflexivity.
Qed.

Lemma substring_app_r (a b : string) (n : nat) :
  (String.length a <= n)%nat ->
  String.substring 0 n (a +:+ b) = a +:+ String.substring 0 (n - String.length a) b.
Proof.
  revert n. induction a as [|c a IH]; intros n Hn.
  - rewrite !app_empty_l. simpl. rewrite Nat.sub_0_r. reflexivity.
  - rewrite !app_cons. destruct n as [|n]; simpl in Hn; [lia|].
    simpl. rewrite IH by lia. reflexivity.
Qed.

(** One arrival at a capture buffer, as both stream listeners compute it. *)
Lemma capture_step (total buffer chunk : string) (truncated : bool) :
  0 <= AGENT_MAX_OUTPUT_SIZE ->
  headOf total buffer truncated ->
  headOf (total +:+ chunk)
    (if truncated then buffer
     else if JS.len chunk >? AGENT_MAX_OUTPUT_SIZE - JS.len buffer
          then buffer +:+ JS.slice chunk 0 (AGENT_MAX_OUTPUT_SIZE - JS.len buffer)
          else buffer +:+ chunk)
    (if truncated then true
     else JS.len chunk >? AGENT_MAX_OUTPUT_SIZE - JS.len buffer).
Proof.
  intros Hcap [Hbuf Hflag]. unfold headOf. rewrite len_app.
  pose proof (len_nonneg chunk) as Hchunk. unfold JS.len in *.
  destruct truncated.
  - symmetry in Hflag. apply Z.ltb_lt in Hflag.
    split; [|symmetry; apply Z.ltb_lt; lia].
    rewrite substring_app_l by lia. exact Hbuf.
  - symmetry in Hflag. apply Z.ltb_ge in Hflag.
    rewrite substring_all in Hbuf by lia. subst buffer.
    destruct (Z.gtb_spec (Z.of_nat (String.length chunk))
                (AGENT_MAX_OUTPUT_SIZE - Z.of_nat (String.length total))) as [Hgt|Hfit].
    + split; [|symmetry; apply Z.ltb_lt; lia].
      rewrite substring_app_r by lia. f_equal.
      replace (AGENT_MAX_OUTPUT_SIZE - Z.of_nat (String.length total))
        with (Z.of_nat (Z.to_nat AGENT_MAX_OUTPUT_SIZE - String.length total)) by lia.
      rewrite (slice_nat chunk 0) by lia. rewrite Nat.sub_0_r. reflexivity.
    + split; [|symmetry; apply Z.ltb_ge; lia].
      rewrite substring_all; [reflexivity|]. rewrite length_app. lia.
Qed.

Lemma step_stderr_other (group : RegisteredGroup) (input : ContainerInput)
    (startTime : Z) (st st' : State) (ev : Event) :
  (forall chunk, ev <> StderrData chunk) ->
  step group input startTime st ev = Returned st' ->
  stderr st' = stderr st /\ stderrTruncated st' = stderrTruncated st.
Proof.
  intros Hne Hstep. destruct ev as [chunk|chunk| |code now stamp stamp'|message];
    simpl in Hstep.
  - injection Hstep as <-. unfold onStdoutData.
    destruct (stdoutTruncated st); [split; reflexivity|].
    destruct (_ >? _); split; reflexivity.
  - destruct (Hne chunk eq_refl).
  - injection Hstep as <-. destruct (timerPending st); split; reflexivity.
  - unfold onClose in Hstep. destruct (fs_throws _); [discriminate|].
    destruct (nonZero code); injection Hstep as <-; split; reflexivity.
  - injection Hstep as <-. split; reflexivity.
Qed.

Lemma run_stdout_head (group : RegisteredGroup) (input : ContainerInput)
    (startTime : Z) (events : list Event) :
  0 <= AGENT_MAX_OUTPUT_SIZE ->
  forall (total : string) (st st' : State),
    headOf total (stdout st) (stdoutTruncated st) ->
    run group input startTime st events = Returned st' ->
    headOf (total +:+ written events) (stdout st') (stdoutTruncated st').
Proof.
  intros Hcap. induction events as [|ev rest IH]; intros total st st' Hinv Hrun.
  - simpl in Hrun. injection Hrun as <-.
    unfold written. simpl. rewrite app_empty_r. exact Hinv.
  - simpl in Hrun.
    destruct (step group input startTime st ev) as [st1|e st1] eqn:Hstep;
      [|discriminate].
    assert (Hother : (forall chunk, ev <> StdoutData chunk) ->
                     headOf (total +:+ written (ev :: rest)) (stdout st') (stdoutTruncated st')).
    { intros Hne.
      destruct (step_stdout_other _ _ _ _ _ _ Hne Hstep) as [E1 E2].
      replace (written (ev :: rest)) with (written rest)
        by (destruct ev; try reflexivity; destruct (Hne chunk eq_refl)).
      apply (IH total st1); [rewrite E1, E2; exact Hinv|exact Hrun]. }
    destruct ev as [chunk|chunk| |code now stamp stamp'|message];
      try (apply Hother; intros ?; discriminate).
    simpl in Hstep. injection Hstep as <-.
    unfold written. simpl stdoutChunks. rewrite concat_empty_cons, <- app_assoc_s.
    apply (IH (total +:+ chunk) (onStdoutData chunk st)); [|exact Hrun].
    pose proof (capture_step total (stdout st) chunk (stdoutTruncated st) Hcap Hinv) as H.
    unfold onStdoutData. destruct (stdoutTruncated st) eqn:Ht; [rewrite Ht; exact H|].
    destruct (JS.len chunk >? AGENT_MAX_OUTPUT_SIZE - JS.len (stdout st)); exact H.
Qed.

Lemma run_stderr_head (group : RegisteredGroup) (input : ContainerInput)
    (startTime : Z) (events : list Event) :
  0 <= AGENT_MAX_OUTPUT_SIZE ->
  forall (total : string) (st st' : State),
    headOf total (stderr st) (stderrTruncated st) ->
    run group input startTime st events = Returned st' ->
    headOf (total +:+ writtenErr events) (stderr st') (stderrTruncated st').
Proof.
  intros Hcap. induction events as [|ev rest IH]; intros total st st' Hinv Hrun.
  - simpl in Hrun. injection Hrun as <-.
    unfold writtenErr. simpl. rewrite app_empty_r. exact Hinv.
  - simpl in Hrun.
    destruct (step group input startTime st ev) as [st1|e st1] eqn:Hstep;
      [|discriminate].
    assert (Hother : (forall chunk, ev <> StderrData chunk) ->
                     headOf (total +:+ writtenErr (ev :: rest)) (stderr st') (stderrTruncated st')).
    { intros Hne.
      destruct (step_stderr_other _ _ _ _ _ _ Hne Hstep) as [E1 E2].
      replace (writtenErr (ev :: rest)) with (writtenErr rest)
        by (destruct ev; try reflexivity; destruct (Hne chunk eq_refl)).
      apply (IH total st1); [rewrite E1, E2; exact Hinv|exact Hrun]. }
    destruct ev as [chunk|chunk| |code now stamp stamp'|message];
      try (apply Hother; intros ?; discriminate).
    simpl in Hstep. injection Hstep as <-.
    unfold writtenErr. simpl stderrChunks. rewrite concat_empty_cons, <- app_assoc_s.
    apply (IH (total +:+ chunk) (onStderrData chunk st)); [|exact Hrun].
    pose proof (capture_step total (stderr st) chunk (stderrTruncated st) Hcap Hinv) as H.
    unfold onStderrData. destruct (stderrTruncated st) eqn:Ht; [rewrite Ht; exact H|].
    destruct (JS.len chunk >? AGENT_MAX_OUTPUT_SIZE - JS.len (stderr st)); exact H.
Qed.

Lemma headOf_empty : 0 <= AGENT_MAX_OUTPUT_SIZE -> headOf "" "" false.
Proof.
  intros Hcap. split; [destruct (Z.to_nat AGENT_MAX_OUTPUT_SIZE); reflexivity|].
  symmetry. apply Z.ltb_ge. exact Hcap.
Qed.

(** X1.  Under every schedule the captured stdout is the head of the
    text delivered to the stdout listener, that is of the chunks, each
    decoded by its own [data.toString()], joined in order of arrival: all
    of that text when it fits in [AGENT_MAX_OUTPUT_SIZE] code units, its
    first [AGENT_MAX_OUTPUT_SIZE] units otherwise.  [stdoutTruncated] is
    set exactly when that text is longer than the cap.  What arrives on
    stderr makes no difference.  (Decoding is per chunk, so this text need
    not be the decoding of the bytes the worker wrote.) *)
Theorem stdout_is_head_of_decoded_chunks (group : RegisteredGroup) (input : ContainerInput)
    (startTime : Z) (calls : list FsCall) (env : gmap string string)
    (events : list Event) (st : State) :
  0 <= AGENT_MAX_OUTPUT_SIZE ->
  run group input startTime (spawned group input calls env) events = Returned st ->
  stdout st = String.substring 0 (Z.to_nat AGENT_MAX_OUTPUT_SIZE) (written events)
  /\ stdoutTruncated st = (AGENT_MAX_OUTPUT_SIZE <? JS.len (written events))
  /\ (JS.len (written events) <= AGENT_MAX_OUTPUT_SIZE -> stdout st = written events).
Proof.
  intros Hcap Hrun.
  destruct (run_stdout_head group input startTime events Hcap ""
              (spawned group input calls env) st (headOf_empty Hcap) Hrun)
    as [Hbuf Hflag].
  rewrite app_empty_l in Hbuf, Hflag.
  split; [exact Hbuf|]. split; [exact Hflag|].
  intros Hfit. rewrite Hbuf. apply substring_all. unfold JS.len in Hfit. lia.
Qed.

(** X2.  The stderr listener keeps the same discipline as the stdout one:
    under every schedule the captured stderr is never longer than
    [AGENT_MAX_OUTPUT_SIZE], it is the head of the text delivered to the
    stderr listener (the chunks, each decoded by its own
    [data.toString()], joined in order of arrival), and [stderrTruncated]
    is set exactly when that text is longer than the cap. *)
Theorem stderr_is_head_of_decoded_chunks (group : RegisteredGroup) (input : ContainerInput)
    (startTime : Z) (calls : list FsCall) (env : gmap string string)
    (events : list Event) (st : State) :
  0 <= AGENT_MAX_OUTPUT_SIZE ->
  run group input startTime (spawned group input calls env) events = Returned st ->
  JS.len (stderr st) <= AGENT_MAX_OUTPUT_SIZE
  /\ stderr st = String.substring 0 (Z.to_nat AGENT_MAX_OUTPUT_SIZE) (writtenErr events)
  /\ stderrTruncated st = (AGENT_MAX_OUTPUT_SIZE <? JS.len (writtenErr events)).
Proof.
  intros Hcap Hrun.
  destruct (run_stderr_head group input startTime events Hcap ""
              (spawned group input calls env) st (headOf_empty Hcap) Hrun)
    as [Hbuf Hflag].
  rewrite app_empty_l in Hbuf, Hflag.
  split; [|split; [exact Hbuf|exact Hflag]].
  rewrite Hbuf. unfold JS.len. rewrite length_substring. lia.
Qed.

(** ** What the listeners do, and how often *)

Lemma kills_app (a b : list Effect) : kills (a ++ b) = (kills a + kills b)%nat.
Proof.
  induction a as [|e a IH]; [reflexivity|]. destruct e; simpl; rewrite IH; reflexivity.
Qed.

Lemma resolved_app (a b : list Effect) : resolved (a ++ b) = resolved a ++ resolved b.
Proof.
  induction a as [|e a IH]; [reflexivity|]. destruct e; simpl; rewrite IH; reflexivity.
Qed.

(** The effects of one event, spelled out. *)
Lemma step_effects (group : RegisteredGroup) (input : ContainerInput) (startTime : Z)
    (st : State) (ev : Event) :
  exists tail : list Effect,
    effects (stateOf (step group input startTime st ev)) = effects st ++ tail
    /\ Forall (byListener group) tail
    /\ kills tail = (match ev with
                     | TimerFires => if timerPending st then 1 else 0
                     | _ => 0
                     end)%nat.
Proof.
  destruct ev as [chunk|chunk| |code now stamp stamp'|message]; simpl.
  - exists []. rewrite app_nil_r. split; [|split; [constructor|reflexivity]].
    handlers. destruct (stdoutTruncated st); [|destruct (_ >? _)]; reflexivity.
  - exists []. rewrite app_nil_r. split; [|split; [constructor|reflexivity]].
    handlers. destruct (stderrTruncated st); [|destruct (_ >? _)]; reflexivity.
  - destruct (timerPending st).
    + exists [Kill "SIGKILL"; Resolve (errorOutput timeoutMessage)].
      split; [handlers; simpl; rewrite <- app_assoc; reflexivity|].
      split; [|reflexivity].
      constructor; [right; left; reflexivity|].
      constructor; [right; right; left; eexists; reflexivity|constructor].
    + exists []. rewrite app_nil_r. split; [reflexivity|]. split; [constructor|reflexivity].
  - unfold onClose.
    set (write := WriteFileSync _ _).
    assert (Hwrite : byListener group (Fs write)).
    { right; right; right. subst write. eexists _, _. reflexivity. }
    destruct (fs_throws write).
    + exists [ClearTimeout; Fs write].
      split; [handlers; simpl; rewrite <- app_assoc; reflexivity|].
      split; [|reflexivity].
      constructor; [left; reflexivity|]. constructor; [exact Hwrite|constructor].
    + destruct (nonZero code); eexists [ClearTimeout; Fs write; Resolve _];
        (split; [handlers; simpl; rewrite <- !app_assoc; reflexivity|]);
        (split; [|reflexivity]);
        (constructor; [left; reflexivity|]);
        (constructor; [exact Hwrite|]);
        (constructor; [right; right; left; eexists; reflexivity|constructor]).
  - exists [ClearTimeout; Resolve (errorOutput ("Agent spawn error: " +:+ message))].
    split; [handlers; simpl; rewrite <- app_assoc; reflexivity|].
    split; [|reflexivity].
    constructor; [left; reflexivity|].
    constructor; [right; right; left; eexists; reflexivity|constructor].
Qed.

Lemma run_effects (group : RegisteredGroup) (input : ContainerInput) (startTime : Z)
    (events : list Event) :
  forall st : State,
    exists tail : list Effect,
      effects (stateOf (run group input startTime st events)) = effects st ++ tail
      /\ Forall (byListener group) tail.
Proof.
  induction events as [|ev rest IH]; intros st; simpl.
  - exists []. rewrite app_nil_r. split; [reflexivity|constructor].
  - destruct (step_effects group input startTime st ev) as (t1 & E1 & F1 & _).
    destruct (step group input startTime st ev) as [st1|e st1]; simpl in E1 |- *.
    + destruct (IH st1) as (t2 & E2 & F2).
      exists (t1 ++ t2). rewrite E2, E1, <- app_assoc. split; [reflexivity|].
      apply Forall_app. split; assumption.
    + exists t1. split; assumption.
Qed.

(** X3.  Whatever the schedule, the effects of an invocation are those of
    the promise executor, in its order (the [mkdirSync] calls made before,
    one [spawn] of [node] on the runner script in the group directory, the
    serialized input written to stdin, stdin ended, the timer set),
    followed only by what the listeners do: [clearTimeout], [kill] with
    SIGKILL, [resolve], and writing a run log named [agent-<stamp>.log] in
    the group's logs directory.  So no listener spawns, writes to stdin,
    sets a timer, creates a directory, renames or removes anything. *)
Theorem listeners_only_clear_kill_resolve_log (group : RegisteredGroup)
    (input : ContainerInput) (startTime : Z) (calls : list FsCall)
    (env : gmap string string) (events : list Event) :
  exists tail : list Effect,
    effects (stateOf (run group input startTime (spawned group input calls env) events))
    = map Fs calls
      ++ [ Spawn "node" [AGENT_RUNNER_PATH] env (path_join [GROUPS_DIR; folder group]);
           StdinWrite (JSON_stringify (inputJSON input));
           StdinEnd;
           SetTimeout AGENT_TIMEOUT ]
      ++ tail
    /\ Forall (byListener group) tail.
Proof.
  destruct (run_effects group input startTime events (spawned group input calls env))
    as (tail & E & F).
  exists tail. split; [|exact F]. rewrite E. simpl. rewrite <- app_assoc. reflexivity.
Qed.

Lemma step_killInv (group : RegisteredGroup) (input : ContainerInput) (startTime : Z)
    (st : State) (ev : Event) :
  killInv st -> killInv (stateOf (step group input startTime st ev)).
Proof.
  intros (Hpend & Hle & Hone). unfold killInv.
  destruct (step_effects group input startTime st ev) as (tail & E & _ & K).
  rewrite E, kills_app, K. clear E K tail.
  destruct ev as [chunk|chunk| |code now stamp stamp'|message]; simpl;
    rewrite ?Nat.add_0_r.
  - assert (E : settled (onStdoutData chunk st) = settled st
                /\ timerPending (onStdoutData chunk st) = timerPending st).
    { handlers. destruct (stdoutTruncated st); [|destruct (_ >? _)]; split; reflexivity. }
    destruct E as [-> ->]. split; [exact Hpend|]. split; [exact Hle|exact Hone].
  - assert (E : settled (onStderrData chunk st) = settled st
                /\ timerPending (onStderrData chunk st) = timerPending st).
    { handlers. destruct (stderrTruncated st); [|destruct (_ >? _)]; split; reflexivity. }
    destruct E as [-> ->]. split; [exact Hpend|]. split; [exact Hle|exact Hone].
  - destruct (timerPending st) eqn:Hp.
    + destruct (Hpend eq_refl) as [Hnone Hzero]. rewrite Hzero.
      handlers. simpl. rewrite Hnone.
      split; [discriminate|]. split; [lia|reflexivity].
    + rewrite Nat.add_0_r, Hp. split; [discriminate|]. split; [exact Hle|exact Hone].
  - unfold onClose. destruct (fs_throws _); [|destruct (nonZero code)]; simpl;
      (split; [discriminate|]); (split; [exact Hle|]); intros Hk;
      try (rewrite (Hone Hk); reflexivity); exact (Hone Hk).
  - handlers. simpl. split; [discriminate|]. split; [exact Hle|].
    intros Hk. rewrite (Hone Hk). reflexivity.
Qed.

Lemma run_killInv (group : RegisteredGroup) (input : ContainerInput) (startTime : Z)
    (events : list Event) :
  forall st : State, killInv st -> killInv (stateOf (run group input startTime st events)).
Proof.
  induction events as [|ev rest IH]; intros st Hinv; simpl; [exact Hinv|].
  pose proof (step_killInv group input startTime st ev Hinv) as H.
  destruct (step group input startTime st ev) as [st1|e st1]; simpl in H |- *.
  - apply IH. exact H.
  - exact H.
Qed.

Lemma kills_map_Fs (calls : list FsCall) : kills (map Fs calls) = 0%nat.
Proof. induction calls as [|c calls IH]; [reflexivity|exact IH]. Qed.

Lemma spawned_killInv (group : RegisteredGroup) (input : ContainerInput)
    (calls : list FsCall) (env : gmap string string) :
  killInv (spawned group input calls env).
Proof.
  assert (Hz : kills (effects (spawned group input calls env)) = 0%nat).
  { simpl. rewrite kills_app, kills_map_Fs. reflexivity. }
  unfold killInv. rewrite Hz. split; [split; reflexivity|]. split; [lia|discriminate].
Qed.

(** X4.  Under every schedule the child is signalled at most once; and if
    it was, the caller's result is the timeout error, so a worker whose
    exit or spawn error settled the promise is never signalled. *)
Theorem at_most_one_kill (group : RegisteredGroup) (input : ContainerInput)
    (startTime : Z) (calls : list FsCall) (env : gmap string string)
    (events : list Event) :
  let final := stateOf (run group input startTime (spawned group input calls env) events) in
  (kills (effects final) <= 1)%nat
  /\ (kills (effects final) = 1%nat -> settled final = Some (errorOutput timeoutMessage))
  /\ (forall v : JSON, settled final = Some v -> v <> errorOutput timeoutMessage ->
      kills (effects final) = 0%nat).
Proof.
  intros final.
  destruct (run_killInv group input startTime events _
              (spawned_killInv group input calls env)) as (_ & Hle & Hone).
  fold final in Hle, Hone. split; [exact Hle|]. split; [exact Hone|].
  intros v Hv Hne.
  destruct (kills (effects final)) as [|[|n]] eqn:Hk; [reflexivity| |lia].
  rewrite (Hone eq_refl) in Hv. congruence.
Qed.

Lemma step_kills_timer_off (group : RegisteredGroup) (input : ContainerInput)
    (startTime : Z) (st : State) (ev : Event) :
  timerPending st = false ->
  kills (effects (stateOf (step group input startTime st ev))) = kills (effects st).
Proof.
  intros Hoff.
  destruct (step_effects group input startTime st ev) as (tail & E & _ & K).
  rewrite E, kills_app, K, Hoff. destruct ev; lia.
Qed.

Lemma run_kills_timer_off (group : RegisteredGroup) (input : ContainerInput)
    (startTime : Z) (events : list Event) :
  forall st : State,
    timerPending st = false ->
    kills (effects (stateOf (run group input startTime st events))) = kills (effects st).
Proof.
  induction events as [|ev rest IH]; intros st Hoff; simpl; [reflexivity|].
  pose proof (step_kills_timer_off group input startTime st ev Hoff) as Hk.
  destruct (step_timer_off group input startTime st ev Hoff) as [Hoff' _].
  destruct (step group input startTime st ev) as [st1|e st1]; simpl in Hk, Hoff' |- *.
  - rewrite (IH st1 Hoff'). exact Hk.
  - exact Hk.
Qed.

(** X5.  Once a [close] or an [error] event has been handled, from any
    state of the closure, the timer is off for good: the timer callback
    does nothing if it still comes, and no signal is sent from then on,
    whatever follows.  This holds even when writing the run log throws. *)
Theorem no_kill_after_close_or_error (group : RegisteredGroup) (input : ContainerInput)
    (startTime : Z) (st : State) (post : list Event) :
  (forall (code : option Z) (now : Z) (stamp stamp' : string),
      let ev := ChildClose code now stamp stamp' in
      let after := stateOf (step group input startTime st ev) in
      timerPending after = false
      /\ step group input startTime after TimerFires = Returned after
      /\ kills (effects (stateOf (run group input startTime st (ev :: post))))
         = kills (effects st))
  /\ (forall message : string,
        let ev := ChildError message in
        let after := stateOf (step group input startTime st ev) in
        timerPending after = false
        /\ step group input startTime after TimerFires = Returned after
        /\ kills (effects (stateOf (run group input startTime st (ev :: post))))
           = kills (effects st)).
Proof.
  assert (Hgen : forall ev : Event,
             timerPending (stateOf (step group input startTime st ev)) = false ->
             kills (effects (stateOf (step group input startTime st ev))) = kills (effects st) ->
             let after := stateOf (step group input startTime st ev) in
             timerPending after = false
             /\ step group input startTime after TimerFires = Returned after
             /\ kills (effects (stateOf (run group input startTime st (ev :: post))))
                = kills (effects st)).
  { intros ev Hoff Hk after. split; [exact Hoff|].
    split.
    { change (step group input startTime after TimerFires)
        with (Returned (if timerPending after then onTimeout after else after)).
      unfold after. rewrite Hoff. reflexivity. }
    simpl run. destruct (step group input startTime st ev) as [st1|e st1];
      simpl in Hoff, Hk |- *; [|exact Hk].
    rewrite (run_kills_timer_off group input startTime post st1 Hoff). exact Hk. }
  split.
  - intros code now stamp stamp'. apply Hgen.
    + simpl. unfold onClose. destruct (fs_throws _); [|destruct (nonZero code)]; reflexivity.
    + destruct (step_effects group input startTime st (ChildClose code now stamp stamp'))
        as (tail & E & _ & K).
      rewrite E, kills_app, K. lia.
  - intros message. apply Hgen.
    + reflexivity.
    + destruct (step_effects group input startTime st (ChildError message))
        as (tail & E & _ & K).
      rewrite E, kills_app, K. lia.
Qed.

(** The caller holds the argument of the first call of [resolve]. *)
Lemma step_first_resolve (group : RegisteredGroup) (input : ContainerInput)
    (startTime : Z) (st : State) (ev : Event) :
  settled st = head (resolved (effects st)) ->
  settled (stateOf (step group input startTime st ev))
  = head (resolved (effects (stateOf (step group input startTime st ev)))).
Proof.
  intros Hinv.
  assert (Hres : forall (v : JSON) (s : State),
             settled s = head (resolved (effects s)) ->
             settled (resolve v s) = head (resolved (effects (resolve v s)))).
  { intros v s Hs. unfold resolve. simpl. rewrite resolved_app, Hs. simpl.
    destruct (resolved (effects s)); reflexivity. }
  assert (Hemit : forall (e : Effect) (l : list Effect),
             (forall v, e <> Resolve v) -> resolved (l ++ [e]) = resolved l).
  { intros e l He. rewrite resolved_app. destruct e; simpl; try apply app_nil_r.
    destruct (He value eq_refl). }
  destruct ev as [chunk|chunk| |code now stamp stamp'|message]; cbn [step stateOf].
  - handlers. destruct (stdoutTruncated st); [|destruct (_ >? _)]; exact Hinv.
  - handlers. destruct (stderrTruncated st); [|destruct (_ >? _)]; exact Hinv.
  - destruct (timerPending st); [|exact Hinv]. unfold onTimeout. apply Hres.
    simpl. rewrite Hemit by (intros; discriminate). exact Hinv.
  - unfold onClose.
    assert (Hlog : forall w : FsCall,
               settled (emit (Fs w) (clearTimeout st))
               = head (resolved (effects (emit (Fs w) (clearTimeout st))))).
    { intros w. simpl. rewrite !Hemit by (intros; discriminate). exact Hinv. }
    destruct (fs_throws _); [apply Hlog|].
    destruct (nonZero code); simpl stateOf; apply Hres, Hlog.
  - unfold onError. apply Hres. simpl. rewrite Hemit by (intros; discriminate). exact Hinv.
Qed.

Lemma resolved_map_Fs (calls : list FsCall) : resolved (map Fs calls) = [].
Proof. induction calls as [|c calls IH]; [reflexivity|exact IH]. Qed.

(** X6.  Under every schedule, what the caller of [runContainerAgent] has
    received is the argument of the first call of [resolve] made so far
    (nothing, if there was none): later calls, whatever their number, are
    without effect on the promise, and a result once received stays the
    same whatever events follow. *)
Theorem first_resolve_wins (group : RegisteredGroup) (input : ContainerInput)
    (startTime : Z) (calls : list FsCall) (env : gmap string string)
    (events : list Event) :
  let final := stateOf (run group input startTime (spawned group input calls env) events) in
  settled final = head (resolved (effects final))
  /\ forall (more : list Event) (v : JSON),
      settled final = Some v ->
      settled (stateOf (run group input startTime (spawned group input calls env)
                          (events ++ more))) = Some v.
Proof.
  intros final. subst final. split.
  2: { intros more v Hv. rewrite run_app.
       destruct (run group input startTime (spawned group input calls env) events)
         as [st1|e st1]; simpl in Hv |- *; [|exact Hv].
       apply run_settled. exact Hv. }
  assert (Hinit : settled (spawned group input calls env)
                  = head (resolved (effects (spawned group input calls env)))).
  { simpl. rewrite resolved_app, resolved_map_Fs. reflexivity. }
  revert Hinit. generalize (spawned group input calls env).
  induction events as [|ev rest IH]; intros st Hinv; simpl; [exact Hinv|].
  pose proof (step_first_resolve group input startTime st ev Hinv) as H.
  destruct (step group input startTime st ev) as [st1|e st1]; simpl in H |- *.
  - apply IH. exact H.
  - exact H.
Qed.

Lemma parseAgentOutput_deliverable (out : string) : deliverable (parseAgentOutput out).
Proof.
  pose proof (parseAgentOutput_cases out) as H. unfold deliverable, isErrorOutput.
  destruct (JSON_parse (jsonLine out)) as [v|message] eqn:E.
  - destruct v; try (right; exists out; rewrite H; split; [exact E|discriminate]).
    left. eexists. exact H.
  - left. eexists. exact H.
Qed.

Lemma step_deliverable (group : RegisteredGroup) (input : ContainerInput)
    (startTime : Z) (st : State) (ev : Event) :
  (forall v, settled st = Some v -> deliverable v) ->
  forall v, settled (stateOf (step group input startTime st ev)) = Some v -> deliverable v.
Proof.
  intros Hinv.
  assert (Hres : forall (w : JSON) (s : State),
             settled s = settled st -> deliverable w ->
             forall v, settled (resolve w s) = Some v -> deliverable v).
  { intros w s Hs Hw v. unfold resolve. simpl. rewrite Hs.
    destruct (settled st) as [x|] eqn:Hx.
    - intros [= <-]. apply Hinv. reflexivity.
    - intros [= <-]. exact Hw. }
  assert (Herr : forall msg, deliverable (errorOutput msg)).
  { intros msg. left. eexists. reflexivity. }
  destruct ev as [chunk|chunk| |code now stamp stamp'|message]; cbn [step stateOf].
  - handlers. destruct (stdoutTruncated st); [|destruct (_ >? _)]; exact Hinv.
  - handlers. destruct (stderrTruncated st); [|destruct (_ >? _)]; exact Hinv.
  - destruct (timerPending st); [|exact Hinv]. apply Hres; [reflexivity|apply Herr].
  - unfold onClose. destruct (fs_throws _); [exact Hinv|].
    destruct (nonZero code); simpl stateOf;
      (apply Hres; [reflexivity|]); [apply Herr|apply parseAgentOutput_deliverable].
  - apply Hres; [reflexivity|apply Herr].
Qed.

(** X7.  Whatever the schedule and whatever the worker prints, the caller
    never receives [null]: a value it receives is one of the runner's own
    error results [{status: 'error', result: null, error: ...}], or a value
    other than [null] that [JSON.parse] returned for the text extracted
    from an output. *)
Theorem caller_never_receives_null (group : RegisteredGroup) (input : ContainerInput)
    (startTime : Z) (calls : list FsCall) (env : gmap string string)
    (events : list Event) :
  let final := stateOf (run group input startTime (spawned group input calls env) events) in
  settled final <> Some JNull
  /\ forall v : JSON, settled final = Some v -> deliverable v.
Proof.
  intros final.
  assert (H : forall v, settled final = Some v -> deliverable v).
  { subst final.
    assert (Hinit : forall v, settled (spawned group input calls env) = Some v ->
                              deliverable v) by discriminate.
    revert Hinit. generalize (spawned group input calls env).
    induction events as [|ev rest IH]; intros st Hinv; simpl; [exact Hinv|].
    pose proof (step_deliverable group input startTime st ev Hinv) as Hstep.
    destruct (step group input startTime st ev) as [st1|e st1]; simpl in Hstep |- *.
    - apply IH. exact Hstep.
    - exact Hstep. }
  split; [|exact H].
  intros Hnull. destruct (H JNull Hnull) as [[msg Hmsg]|(out & _ & Hne)];
    [discriminate|congruence].
Qed.

(** ** Before the child is spawned *)

Lemma prepare_cases (group : RegisteredGroup) (input : ContainerInput) :
  match prepare group input with
  | (calls, Throw e) =>
      exists (pre : list string) (d : string) (post : list string),
        directories group = pre ++ d :: post
        /\ Forall (fun p => fs_throws (MkdirSync p) = None) pre
        /\ fs_throws (MkdirSync d) = Some e
        /\ calls = map MkdirSync (pre ++ [d])
  | (calls, Normal env) =>
      Forall (fun p => fs_throws (MkdirSync p) = None) (directories group)
      /\ calls = map MkdirSync (directories group)
      /\ snd (buildAgentEnv group (isMain input)) = Normal env
  end.
Proof.
  unfold prepare, buildAgentEnv, mkdirSync, fsCall, directories.
  set (d1 := path_join [GROUPS_DIR; folder group]).
  set (d2 := path_join [path_join [DATA_DIR; "ipc"; folder group]; "messages"]).
  set (d3 := path_join [path_join [DATA_DIR; "ipc"; folder group]; "tasks"]).
  set (d4 := path_join [DATA_DIR; "sessions"; folder group; ".claude"]).
  set (d5 := path_join [GROUPS_DIR; folder group; "logs"]).
  destruct (fs_throws (MkdirSync d1)) as [e|] eqn:E1.
  { exists [], d1, [d1; d2; d3; d4; d5].
    split; [reflexivity|]. split; [constructor|]. split; [exact E1|reflexivity]. }
  destruct (fs_throws (MkdirSync d2)) as [e|] eqn:E2.
  { exists [d1; d1], d2, [d3; d4; d5].
    split; [reflexivity|]. split; [repeat constructor; exact E1|].
    split; [exact E2|reflexivity]. }
  destruct (fs_throws (MkdirSync d3)) as [e|] eqn:E3.
  { exists [d1; d1; d2], d3, [d4; d5].
    split; [reflexivity|]. split; [repeat constructor; assumption|].
    split; [exact E3|reflexivity]. }
  destruct (fs_throws (MkdirSync d4)) as [e|] eqn:E4.
  { exists [d1; d1; d2; d3], d4, [d5].
    split; [reflexivity|]. split; [repeat constructor; assumption|].
    split; [exact E4|reflexivity]. }
  destruct (fs_throws (MkdirSync d5)) as [e|] eqn:E5.
  { exists [d1; d1; d2; d3; d4], d5, [].
    split; [reflexivity|]. split; [repeat constructor; assumption|].
    split; [exact E5|reflexivity]. }
  split; [repeat constructor; assumption|]. split; reflexivity.
Qed.

(** X8.  The promise of [runContainerAgent] is rejected exactly when one
    of the six [mkdirSync] calls made before the child is spawned throws
    (the group directory twice, the two IPC directories, the sessions
    directory, the logs directory, in this order): it is rejected with the
    error of the first that throws, the calls after it are not made, and no
    child is spawned.  Otherwise all six are made and are the first effects
    of the invocation, and the child is spawned in the group directory with
    the environment [buildAgentEnv] returned. *)
Theorem rejected_when_a_directory_fails (group : RegisteredGroup)
    (input : ContainerInput) (startTime : Z) (events : list Event) :
  match runContainerAgent group input startTime events with
  | Rejected e calls =>
      exists (pre : list string) (d : string) (post : list string),
        directories group = pre ++ d :: post
        /\ Forall (fun p => fs_throws (MkdirSync p) = None) pre
        /\ fs_throws (MkdirSync d) = Some e
        /\ calls = map MkdirSync (pre ++ [d])
  | Crashed _ st | Running st =>
      Forall (fun p => fs_throws (MkdirSync p) = None) (directories group)
      /\ exists (env : gmap string string) (tail : list Effect),
          snd (buildAgentEnv group (isMain input)) = Normal env
          /\ effects st
             = map Fs (map MkdirSync (directories group))
               ++ Spawn "node" [AGENT_RUNNER_PATH] env
                    (path_join [GROUPS_DIR; folder group]) :: tail
  end.
Proof.
  unfold runContainerAgent. pose proof (prepare_cases group input) as H.
  destruct (prepare group input) as [calls [env|e]]; [|exact H].
  destruct H as (Hall & -> & Henv).
  destruct (run_effects group input startTime events
              (spawned group input (map MkdirSync (directories group)) env))
    as (tail & E & _).
  destruct (run group input startTime _ events) as [st|e st]; cbn [stateOf] in E;
    (split; [exact Hall|]); exists env; eexists; (split; [exact Henv|]);
    rewrite E; cbn [spawned effects]; rewrite <- app_assoc; reflexivity.
Qed.

(** X9.  If writing the run log throws when the child closes before the
    timer fires, the exception leaves the [close] listener with the timer
    already cleared and [resolve] not called: the promise is neither
    resolved nor rejected, no signal was sent, and the timer can no longer
    settle it. *)
Theorem log_failure_settles_nothing (group : RegisteredGroup) (input : ContainerInput)
    (startTime : Z) (calls : list FsCall) (env : gmap string string)
    (pre post : list Event) (code : option Z) (now : Z) (stamp stamp' e : string) :
  dataOnly pre = true ->
  (forall data : string,
      fs_throws
        (WriteFileSync
           (path_join [path_join [GROUPS_DIR; folder group; "logs"];
                       "agent-" +:+ dashed stamp +:+ ".log"]) data) = Some e) ->
  exists st : State,
    run group input startTime (spawned group input calls env)
      (pre ++ ChildClose code now stamp stamp' :: post) = Uncaught e st
    /\ settled st = None
    /\ timerPending st = false
    /\ resolved (effects st) = []
    /\ kills (effects st) = 0%nat.
Proof.
  intros Hpre Hfull.
  destruct (run_data group input startTime pre Hpre (spawned group input calls env))
    as (st1 & Hrun & Hs & _ & He).
  rewrite run_app, Hrun. cbn [run step]. unfold onClose. rewrite Hfull.
  eexists. split; [reflexivity|]. cbn [settled timerPending effects emit clearTimeout].
  rewrite Hs, He. split; [reflexivity|]. split; [reflexivity|].
  rewrite !resolved_app, !kills_app. cbn [spawned effects].
  rewrite resolved_app, kills_app, resolved_map_Fs, kills_map_Fs. split; reflexivity.
Qed.

(** ** What the worker inherits *)

Lemma buildAgentEnv_value (group : RegisteredGroup) (main : bool)
    (env : gmap string string) :
  snd (buildAgentEnv group main) = Normal env ->
  env =
  (let base : gmap string string :=
     <["CLAUDE_CONFIG_DIR" := path_join [DATA_DIR; "sessions"; folder group; ".claude"]]>
       (<["WORKSPACE_IPC" := path_join [DATA_DIR; "ipc"; folder group]]>
          (<["WORKSPACE_GLOBAL" := path_join [GROUPS_DIR; "global"]]>
             (<["WORKSPACE_GROUP" := path_join [GROUPS_DIR; folder group]]>
                process_env))) in
   if main then <["WORKSPACE_PROJECT" := process_cwd]> base else base).
Proof.
  unfold buildAgentEnv, mkdirSync, fsCall.
  destruct (fs_throws (MkdirSync (path_join [GROUPS_DIR; folder group])));
    [discriminate|].
  destruct (fs_throws (MkdirSync
              (path_join [path_join [DATA_DIR; "ipc"; folder group]; "messages"])));
    [discriminate|].
  destruct (fs_throws (MkdirSync
              (path_join [path_join [DATA_DIR; "ipc"; folder group]; "tasks"])));
    [discriminate|].
  destruct (fs_throws (MkdirSync
              (path_join [DATA_DIR; "sessions"; folder group; ".claude"])));
    [discriminate|].
  intros [= <-]. reflexivity.
Qed.

(** X10.  The environment [buildAgentEnv] returns is the host's own
    environment with the assigned names laid over it: every variable of
    the host under another name reaches the worker unchanged, none of the
    host's variables is dropped, and no name is added beyond the five
    assigned ones. *)
Theorem agent_env_inherits_host_env (group : RegisteredGroup) (main : bool)
    (env : gmap string string) :
  snd (buildAgentEnv group main) = Normal env ->
  (forall k : string, k ∉ assignedNames -> env !! k = process_env !! k)
  /\ (forall k : string, is_Some (process_env !! k) -> is_Some (env !! k))
  /\ (forall k : string,
        is_Some (env !! k) -> is_Some (process_env !! k) \/ k ∈ assignedNames).
Proof.
  intros H. rewrite (buildAgentEnv_value group main env H). clear H env.
  unfold assignedNames. cbv zeta. split; [|split].
  - intros k Hk. rewrite !not_elem_of_cons in Hk.
    destruct Hk as (H1 & H2 & H3 & H4 & H5 & _).
    destruct main; rewrite ?(lookup_insert_ne _ "WORKSPACE_PROJECT") by congruence;
      rewrite !lookup_insert_ne by congruence; reflexivity.
  - intros k Hk. destruct main; rewrite !lookup_insert_is_Some'; tauto_.
  - intros k. rewrite !elem_of_cons.
    destruct main; rewrite !lookup_insert_is_Some'; intros Hk;
      decompose [or] Hk; subst; tauto_.
Qed.

(** ** The error result of a failed worker *)

Lemma substring_zero (s : string) : forall i : nat, String.substring i 0 s = "".
Proof.
  induction s as [|c s IH]; intros [|i]; simpl; try reflexivity. apply IH.
Qed.

Lemma substring_split (s : string) :
  forall i : nat,
    (i <= String.length s)%nat ->
    s = String.substring 0 i s +:+ String.substring i (String.length s - i) s.
Proof.
  induction s as [|c s IH]; intros [|i] Hi; cbn [String.length] in Hi |- *.
  - reflexivity.
  - lia.
  - cbn [String.substring]. rewrite app_empty_l.
    change (String c s = String.substring 0 (S (String.length s)) (String c s)).
    symmetry. apply substring_all. cbn [String.length]. lia.
  - cbn [String.substring Nat.sub]. rewrite app_cons. f_equal. apply IH. lia.
Qed.

(** [s.slice(-k)] is the end of [s], [k] characters long if [s] has as
    many. *)
Lemma sliceFrom_suffix (s : string) (k : nat) :
  (0 < k)%nat ->
  exists head : string,
    s = head +:+ JS.sliceFrom s (- Z.of_nat k)
    /\ String.length (JS.sliceFrom s (- Z.of_nat k)) = Nat.min k (String.length s).
Proof.
  intros Hk. unfold JS.sliceFrom, JS.slice, JS.clampIndex, JS.len.
  assert (E1 : (- Z.of_nat k <? 0) = true) by (apply Z.ltb_lt; lia).
  assert (E2 : (Z.of_nat (String.length s) <? 0) = false) by (apply Z.ltb_ge; lia).
  rewrite E1, E2.
  set (from := Z.to_nat (Z.max (Z.of_nat (String.length s) + - Z.of_nat k) 0)).
  assert (Hfrom : from = (String.length s - k)%nat) by (unfold from; lia).
  rewrite Nat2Z.id, Nat.min_id, Hfrom.
  exists (String.substring 0 (String.length s - k) s). split.
  - apply substring_split. lia.
  - rewrite length_substring. lia.
Qed.

(** X11.  When the child closes with a code other than 0 before the timer
    fires, the caller receives the error result whose message is
    [Agent exited with code <code>: ] followed by the last 200 characters
    of the captured stderr (all of it when it is shorter), the captured
    stderr being the head, up to the cap, of the stderr chunks as the
    listener decoded them. *)
Theorem exit_error_quotes_stderr_tail (group : RegisteredGroup) (input : ContainerInput)
    (startTime : Z) (calls : list FsCall) (env : gmap string string)
    (pre post : list Event) (code : option Z) (now : Z) (stamp stamp' : string)
    (st : State) :
  0 <= AGENT_MAX_OUTPUT_SIZE ->
  dataOnly pre = true ->
  nonZero code = true ->
  run group input startTime (spawned group input calls env)
    (pre ++ ChildClose code now stamp stamp' :: post) = Returned st ->
  exists head tail : string,
    String.substring 0 (Z.to_nat AGENT_MAX_OUTPUT_SIZE) (writtenErr pre) = head +:+ tail
    /\ String.length tail = Nat.min 200 (String.length (head +:+ tail))
    /\ settled st
       = Some (errorOutput
                 ("Agent exited with code " +:+ showCode code +:+ ": " +:+ tail)).
Proof.
  intros Hcap Hpre Hcode Hrun.
  destruct (run_data group input startTime pre Hpre (spawned group input calls env))
    as (st1 & Hrun1 & Hs & Ht & _).
  destruct (run_stderr_head group input startTime pre Hcap ""
              (spawned group input calls env) st1 (headOf_empty Hcap) Hrun1)
    as [Hbuf _].
  rewrite app_empty_l in Hbuf.
  destruct (sliceFrom_suffix (stderr st1) 200 ltac:(lia)) as (head & Hsplit & Hlen).
  change (- Z.of_nat 200) with (-200) in Hsplit, Hlen.
  exists head, (JS.sliceFrom (stderr st1) (-200)).
  split; [rewrite <- Hbuf; exact Hsplit|].
  split; [rewrite <- Hsplit; exact Hlen|].
  rewrite run_app, Hrun1 in Hrun. cbn [run] in Hrun.
  pose proof (first_decisive_event group input startTime st1
                (ChildClose code now stamp stamp') Hs Ht) as Hfirst.
  destruct (step group input startTime st1 (ChildClose code now stamp stamp'))
    as [st2|e st2]; [|discriminate].
  rewrite Hcode in Hfirst. simpl stateOf in Hfirst.
  pose proof (run_settled group input startTime post _ st2 Hfirst) as Hfin.
  rewrite Hrun in Hfin. exact Hfin.
Qed.

(** ** The run log *)

(** X12.  The time stamp in the name of the run log has no colon and no
    full stop: each became a dash, and every other character is kept at
    its place. *)
Theorem log_stamp_has_no_colon_or_dot (s : string) :
  mentions ":" (dashed s) = false
  /\ mentions "." (dashed s) = false
  /\ String.length (dashed s) = String.length s
  /\ forall i : nat,
      String.get i (dashed s)
      = match String.get i s with
        | Some c => Some (if Ascii.eqb c ":" || Ascii.eqb c "." then "-"%char else c)
        | None => None
        end.
Proof.
  induction s as [|c s (IH1 & IH2 & IH3 & IH4)].
  - split; [reflexivity|]. split; [reflexivity|]. split; [reflexivity|].
    intros i. reflexivity.
  - cbn [dashed mentions String.length]. rewrite IH1, IH2, IH3.
    split; [|split; [|split; [reflexivity|]]].
    + destruct (Ascii.eqb c ":") eqn:E1, (Ascii.eqb c ".") eqn:E2;
        cbn [orb]; rewrite ?E1; reflexivity.
    + destruct (Ascii.eqb c ":") eqn:E1, (Ascii.eqb c ".") eqn:E2;
        cbn [orb]; rewrite ?E2; reflexivity.
    + intros [|i]; [reflexivity|]. cbn [String.get]. apply IH4.
Qed.

(** X13.  Unless [LOG_LEVEL] is [debug] or [trace], the entries of the
    run log show of the worker's stdout only whether the capture was
    truncated, of the prompt only its length, and of stderr only whether
    the capture was truncated and, for an exit code other than 0, the last
    500 characters captured.  Two closes with the same group, duration,
    exit code and time stamp, whose inputs agree on [isMain], on the length
    of the prompt and on the session id shown, and whose captured stderr
    ends alike when the code is not 0, give the same entries exactly when
    they agree on both truncation flags.  There are 13 entries for exit
    code 0 and 16 otherwise. *)
Theorem quiet_log_shows_flags_and_lengths_only (group : RegisteredGroup)
    (input input' : ContainerInput) (duration : Z) (code : option Z)
    (stamp' : string) (st st' : State) :
  isVerbose = false ->
  isMain input = isMain input' ->
  JS.len (prompt input) = JS.len (prompt input') ->
  sessionOrNew input = sessionOrNew input' ->
  (nonZero code = true ->
   JS.sliceFrom (stderr st) (-500) = JS.sliceFrom (stderr st') (-500)) ->
  (stdoutTruncated st = stdoutTruncated st' /\ stderrTruncated st = stderrTruncated st'
   <-> logLines group input duration code stamp' st
       = logLines group input' duration code stamp' st')
  /\ length (logLines group input duration code stamp' st)
     = (if nonZero code then 16 else 13)%nat.
Proof.
  intros Hquiet Hmain Hlen Hsession Htail.
  assert (Hflag : forall (label : string) (b b' : bool),
             label +:+ JS.ofBool b = label +:+ JS.ofBool b' -> b = b').
  { intros label b b' H. apply (inj (String.app label)) in H.
    destruct b, b'; try reflexivity; discriminate H. }
  split; [split|].
  - intros [Hout Herr]. unfold logLines.
    rewrite Hquiet, Hmain, Hlen, Hsession, Hout, Herr.
    destruct (nonZero code); [rewrite (Htail eq_refl)|]; reflexivity.
  - intros H. split.
    + apply (f_equal (fun l => nth 6 l "")) in H. apply (Hflag _ _ _ H).
    + apply (f_equal (fun l => nth 7 l "")) in H. apply (Hflag _ _ _ H).
  - unfold logLines. rewrite Hquiet. destruct (nonZero code); reflexivity.
Qed.

(** ** White space around the output *)

Lemma prefix_empty (s : string) : String.prefix "" s = true.
Proof. destruct s; reflexivity. Qed.

Lemma prefix_ws (m : string) (c : ascii) (t : string) :
  m <> "" -> solid m = true -> JS.isWhiteSpace c = true ->
  String.prefix m (String c t) = false.
Proof.
  intros Hm Hsolid Hc. destruct m as [|a m]; [congruence|].
  cbn [solid] in Hsolid. apply andb_prop in Hsolid as [Ha _].
  cbn [String.prefix]. destruct (ascii_dec a c) as [->|]; [|reflexivity].
  rewrite Hc in Ha. discriminate.
Qed.

Lemma prefix_solid_app (m : string) :
  solid m = true ->
  forall s w : string,
    blank w = true -> String.prefix m (s +:+ w) = String.prefix m s.
Proof.
  induction m as [|a m IH]; intros Hsolid s w Hw.
  - rewrite !prefix_empty. reflexivity.
  - destruct s as [|c s].
    + rewrite app_empty_l. destruct w as [|c w]; [reflexivity|].
      cbn [blank] in Hw. apply andb_prop in Hw as [Hc _].
      rewrite (prefix_ws (String a m) c w); [reflexivity|discriminate|exact Hsolid|exact Hc].
    + rewrite app_cons. cbn [String.prefix].
      destruct (ascii_dec a c); [|reflexivity].
      cbn [solid] in Hsolid. apply andb_prop in Hsolid as [_ Hm].
      apply IH; assumption.
Qed.

Lemma index_blank (m w : string) :
  m <> "" -> solid m = true -> blank w = true -> String.index 0 m w = None.
Proof.
  intros Hm Hsolid. induction w as [|c w IH]; intros Hw.
  - apply index_empty. exact Hm.
  - cbn [blank] in Hw. apply andb_prop in Hw as [Hc Hw].
    rewrite index_cons, (prefix_ws m c w Hm Hsolid Hc), (IH Hw). reflexivity.
Qed.

Lemma index_app_blank (m s w : string) :
  m <> "" -> solid m = true -> blank w = true ->
  String.index 0 m (s +:+ w) = String.index 0 m s.
Proof.
  intros Hm Hsolid Hw. induction s as [|c s IH].
  - rewrite app_empty_l, (index_blank m w Hm Hsolid Hw), (index_empty m Hm). reflexivity.
  - rewrite app_cons, !index_cons, IH, <- app_cons,
      (prefix_solid_app m Hsolid (String c s) w Hw).
    reflexivity.
Qed.

Lemma index_blank_app (m w s : string) :
  m <> "" -> solid m = true -> blank w = true ->
  String.index 0 m (w +:+ s)
  = option_map (fun i => String.length w + i)%nat (String.index 0 m s).
Proof.
  intros Hm Hsolid. induction w as [|c w IH]; intros Hw.
  - rewrite app_empty_l. destruct (String.index 0 m s); reflexivity.
  - cbn [blank] in Hw. apply andb_prop in Hw as [Hc Hw].
    rewrite app_cons, index_cons, (prefix_ws m c _ Hm Hsolid Hc), (IH Hw).
    destruct (String.index 0 m s); reflexivity.
Qed.

Lemma substring_within (a b : string) :
  forall i n : nat,
    (i + n <= String.length a)%nat ->
    String.substring i n (a +:+ b) = String.substring i n a.
Proof.
  induction a as [|c a IH]; intros i n Hin; cbn [String.length] in Hin.
  - assert (i = 0%nat) as -> by lia. assert (n = 0%nat) as -> by lia.
    rewrite app_empty_l. destruct b; reflexivity.
  - rewrite app_cons. destruct i as [|i].
    + destruct n as [|n]; [reflexivity|]. cbn [String.substring]. f_equal.
      apply IH. lia.
    + cbn [String.substring]. apply IH. lia.
Qed.

Lemma substring_beyond (a b : string) :
  forall i n : nat,
    String.substring (String.length a + i) n (a +:+ b) = String.substring i n b.
Proof.
  induction a as [|c a IH]; intros i n; [reflexivity|].
  rewrite app_cons. cbn [String.length Nat.add String.substring]. apply IH.
Qed.

Lemma slice_app_l (s w : string) (a b : Z) :
  0 <= a -> 0 <= b <= JS.len s -> JS.slice (s +:+ w) a b = JS.slice s a b.
Proof.
  unfold JS.len. intros Ha Hb. unfold JS.slice, JS.clampIndex.
  assert (Ea : (a <? 0) = false) by (apply Z.ltb_ge; lia).
  assert (Eb : (b <? 0) = false) by (apply Z.ltb_ge; lia).
  rewrite Ea, Eb, length_app.
  replace (Nat.min (Z.to_nat b) (String.length s + String.length w)) with (Z.to_nat b) by lia.
  replace (Nat.min (Z.to_nat b) (String.length s)) with (Z.to_nat b) by lia.
  destruct (Z_lt_le_dec a b) as [Hlt|Hge].
  - replace (Nat.min (Z.to_nat a) (String.length s + String.length w))
      with (Z.to_nat a) by lia.
    replace (Nat.min (Z.to_nat a) (String.length s)) with (Z.to_nat a) by lia.
    apply substring_within. lia.
  - replace (Z.to_nat b - Nat.min (Z.to_nat a) (String.length s + String.length w))%nat
      with 0%nat by lia.
    replace (Z.to_nat b - Nat.min (Z.to_nat a) (String.length s))%nat with 0%nat by lia.
    rewrite !substring_zero. reflexivity.
Qed.

Lemma slice_app_r (w s : string) (a b : Z) :
  0 <= a -> 0 <= b ->
  JS.slice (w +:+ s) (JS.len w + a) (JS.len w + b) = JS.slice s a b.
Proof.
  unfold JS.len. intros Ha Hb. unfold JS.slice, JS.clampIndex.
  assert (Ea : (a <? 0) = false) by (apply Z.ltb_ge; lia).
  assert (Eb : (b <? 0) = false) by (apply Z.ltb_ge; lia).
  assert (Ea' : (Z.of_nat (String.length w) + a <? 0) = false) by (apply Z.ltb_ge; lia).
  assert (Eb' : (Z.of_nat (String.length w) + b <? 0) = false) by (apply Z.ltb_ge; lia).
  rewrite Ea, Eb, Ea', Eb', length_app.
  replace (Nat.min (Z.to_nat (Z.of_nat (String.length w) + a))
             (String.length w + String.length s))
    with (String.length w + Nat.min (Z.to_nat a) (String.length s))%nat by lia.
  replace (Nat.min (Z.to_nat (Z.of_nat (String.length w) + b))
             (String.length w + String.length s))
    with (String.length w + Nat.min (Z.to_nat b) (String.length s))%nat by lia.
  rewrite substring_beyond. f_equal. lia.
Qed.

Lemma trimStart_blank_app (w s : string) :
  blank w = true -> JS.trimStart (w +:+ s) = JS.trimStart s.
Proof.
  induction w as [|c w IH]; intros Hw; [reflexivity|].
  cbn [blank] in Hw. apply andb_prop in Hw as [Hc Hw].
  rewrite app_cons. cbn [JS.trimStart]. rewrite Hc. apply IH. exact Hw.
Qed.

Lemma markers_solid :
  solid OUTPUT_START_MARKER = true /\ solid OUTPUT_END_MARKER = true.
Proof. split; reflexivity. Qed.

Lemma markers_ordered (i j k : nat) :
  negb (Z.of_nat (k + i) =? -1) && negb (Z.of_nat (k + j) =? -1)
    && (Z.of_nat (k + j) >? Z.of_nat (k + i))
  = negb (Z.of_nat i =? -1) && negb (Z.of_nat j =? -1) && (Z.of_nat j >? Z.of_nat i).
Proof.
  rewrite !Z.gtb_ltb.
  destruct (Z.eqb_spec (Z.of_nat (k + i)) (-1)); [lia|].
  destruct (Z.eqb_spec (Z.of_nat (k + j)) (-1)); [lia|].
  destruct (Z.eqb_spec (Z.of_nat i) (-1)); [lia|].
  destruct (Z.eqb_spec (Z.of_nat j) (-1)); [lia|].
  cbn [negb andb].
  destruct (Z.ltb_spec (Z.of_nat (k + i)) (Z.of_nat (k + j))),
    (Z.ltb_spec (Z.of_nat i) (Z.of_nat j)); try reflexivity; lia.
Qed.

Lemma jsonLine_app_blank (out w : string) :
  blank w = true -> jsonLine (out +:+ w) = jsonLine out.
Proof.
  intros Hw. destruct markers_solid as [Hs He]. unfold jsonLine, JS.indexOf.
  rewrite (index_app_blank _ out w START_not_empty Hs Hw),
    (index_app_blank _ out w END_not_empty He Hw), (trim_app_blank out w Hw).
  destruct (String.index 0 OUTPUT_START_MARKER out) as [i|] eqn:Ei;
    [|reflexivity].
  destruct (String.index 0 OUTPUT_END_MARKER out) as [j|] eqn:Ej.
  - destruct (indexOf_found _ _ _ Ej) as [_ [Hocc _]].
    pose proof (occursAt_bound _ _ _ END_not_empty Hocc) as Hbound.
    rewrite slice_app_l; [reflexivity| |unfold JS.len; lia].
    unfold JS.len. lia.
  - replace (negb (Z.of_nat i =? -1) && negb (-1 =? -1) && (-1 >? Z.of_nat i))
      with false; [reflexivity|].
    destruct (negb (Z.of_nat i =? -1)); reflexivity.
Qed.

Lemma jsonLine_blank_app (w out : string) :
  blank w = true -> jsonLine (w +:+ out) = jsonLine out.
Proof.
  intros Hw. destruct markers_solid as [Hs He]. unfold jsonLine, JS.indexOf.
  rewrite (index_blank_app _ w out START_not_empty Hs Hw),
    (index_blank_app _ w out END_not_empty He Hw).
  assert (Htrim : JS.trim (w +:+ out) = JS.trim out).
  { unfold JS.trim. rewrite (trimStart_blank_app w out Hw). reflexivity. }
  rewrite Htrim.
  destruct (String.index 0 OUTPUT_START_MARKER out) as [i|] eqn:Ei;
    [|reflexivity].
  destruct (String.index 0 OUTPUT_END_MARKER out) as [j|] eqn:Ej; cbn [option_map].
  - rewrite markers_ordered.
    replace (Z.of_nat (String.length w + i) + JS.len OUTPUT_START_MARKER)
      with (JS.len w + (Z.of_nat i + JS.len OUTPUT_START_MARKER))
      by (unfold JS.len; lia).
    replace (Z.of_nat (String.length w + j)) with (JS.len w + Z.of_nat j)
      by (unfold JS.len; lia).
    rewrite slice_app_r; [reflexivity|unfold JS.len; lia|lia].
  - replace (negb (Z.of_nat (String.length w + i) =? -1) && negb (-1 =? -1)
               && (-1 >? Z.of_nat (String.length w + i)))
      with false by (destruct (negb (Z.of_nat (String.length w + i) =? -1)); reflexivity).
    replace (negb (Z.of_nat i =? -1) && negb (-1 =? -1) && (-1 >? Z.of_nat i))
      with false by (destruct (negb (Z.of_nat i =? -1)); reflexivity).
    reflexivity.
Qed.

(** X14.  White space around what the worker printed does not count:
    output with blank text before it and after it (a final line feed, say)
    is read as the same JSON text and gives the same result, with markers
    or without.  Output of white space only, or none at all, is read as the
    empty text. *)
Theorem white_space_around_output_is_ignored (before out after : string) :
  blank before = true -> blank after = true ->
  jsonLine (before +:+ out +:+ after) = jsonLine out
  /\ parseAgentOutput (before +:+ out +:+ after) = parseAgentOutput out
  /\ jsonLine after = "".
Proof.
  intros Hb Ha.
  assert (E : jsonLine (before +:+ out +:+ after) = jsonLine out).
  { rewrite (jsonLine_blank_app before _ Hb). apply jsonLine_app_blank. exact Ha. }
  split; [exact E|]. split.
  - unfold parseAgentOutput. rewrite E. reflexivity.
  - pose proof (jsonLine_app_blank "" after Ha) as H.
    rewrite app_empty_l in H. rewrite H. reflexivity.
Qed.

End Runner.

(** ** The reference implementation reads back what it writes *)

Section Reference.

Import MiniJSON.

Ltac push_app := repeat (rewrite app_cons || rewrite app_empty_l || rewrite app_assoc_s).

Lemma parseChars_escapeAll (s rest : string) :
  parseChars (escapeAll s +:+ String dq rest) = Some (s, rest).
Proof.
  induction s as [|c s IH]; [reflexivity|].
  cbn [escapeAll]. rewrite app_assoc_s.
  destruct c as [[] [] [] [] [] [] [] []];
    match goal with
    | |- context [escape ?c] =>
        let e := eval vm_compute in (escape c) in change (escape c) with e
    end;
    rewrite ?app_cons, app_empty_l; simpl; rewrite IH; reflexivity.
Qed.

Lemma quote_app (s rest : string) :
  quote s +:+ rest = String dq (escapeAll s +:+ String dq rest).
Proof. unfold quote. rewrite app_cons, app_assoc_s. reflexivity. Qed.

Lemma parseValue_flat (fuel : nat) (v : JSON) (rest : string) :
  flat v = true -> (0 < fuel)%nat ->
  parseValue fuel (stringify v +:+ rest) = Some (v, rest).
Proof.
  intros Hv Hfuel. destruct fuel as [|f]; [lia|].
  destruct v; try discriminate.
  - change (stringify JNull +:+ rest)
      with (String "n" (String "u" (String "l" (String "l" rest)))).
    simpl. unfold expect. simpl. rewrite Nat.sub_0_r.
    assert (H : forall t : string, substring 0 (String.length t) t = t).
    { induction t as [|c t IH]; [reflexivity|]. simpl. rewrite IH. reflexivity. }
    rewrite H. destruct rest; reflexivity.
  - cbn [stringify]. rewrite quote_app. simpl. rewrite parseChars_escapeAll. reflexivity.
Qed.

Lemma concat_members (kv : string * JSON) (rest : list (string * JSON)) :
  String.concat "," (map member (kv :: rest))
  = member kv +:+ match rest with
                  | [] => ""
                  | _ => "," +:+ String.concat "," (map member rest)
                  end.
Proof. destruct rest; simpl; [rewrite app_empty_r|]; reflexivity. Qed.

Lemma parseMembers_flat (fields : list (string * JSON)) :
  fields <> [] ->
  Forall (fun kv => flat (snd kv) = true) fields ->
  forall (fuel : nat) (rest : string),
    (length fields < fuel)%nat ->
    parseMembers fuel (String.concat "," (map member fields) +:+ "}" +:+ rest)
    = Some (fields, rest).
Proof.
  induction fields as [|[k v] fields IH]; [congruence|].
  intros _ Hflat fuel rest Hfuel.
  inversion Hflat as [|? ? Hv Hrest]; subst. simpl in Hv.
  destruct fuel as [|fuel]; [simpl in Hfuel; lia|]. simpl in Hfuel.
  rewrite concat_members. unfold member at 1. cbn [fst snd].
  destruct fields as [|kv' fields'].
  - rewrite !app_assoc_s, quote_app.
    simpl. rewrite parseChars_escapeAll. push_app. simpl.
    rewrite (parseValue_flat fuel v _ Hv) by lia. reflexivity.
  - specialize (IH ltac:(discriminate) Hrest fuel rest ltac:(simpl in Hfuel |- *; lia)).
    remember (String.concat "," (map member (kv' :: fields'))) as others eqn:Hothers.
    rewrite !app_assoc_s, quote_app.
    simpl. rewrite parseChars_escapeAll. push_app. simpl.
    rewrite (parseValue_flat fuel v _ Hv) by lia. simpl.
    change (String "}" rest) with ("}" +:+ rest). rewrite IH. reflexivity.
Qed.

Lemma length_members (fields : list (string * JSON)) :
  (length fields <= String.length (String.concat "," (map member fields)))%nat.
Proof.
  induction fields as [|kv fields IH]; [simpl; lia|].
  rewrite concat_members, length_app.
  assert (Hone : (1 <= String.length (member kv))%nat).
  { unfold member, quote. rewrite app_cons. cbn [String.length]. lia. }
  destruct fields as [|kv' fields']; [simpl; lia|].
  rewrite length_app. cbn [length] in IH |- *. lia.
Qed.

Lemma parseValue_object (fuel : nat) (body : string) :
  parseValue (S fuel) (String "{" (String dq body))
  = match parseMembers fuel (String dq body) with
    | Some (fields, rest) => Some (JObj fields, rest)
    | None => None
    end.
Proof. reflexivity. Qed.

Lemma stringify_object (fields : list (string * JSON)) :
  stringify (JObj fields)
  = String "{" (String.concat "," (map member fields) +:+ "}" +:+ "").
Proof. cbn [stringify]. fold member. push_app. reflexivity. Qed.

(** Objects of strings and [null]s are read back as they were written. *)
Lemma parse_stringify_flat (fields : list (string * JSON)) :
  fields <> [] ->
  Forall (fun kv => flat (snd kv) = true) fields ->
  parse (stringify (JObj fields)) = inl (JObj fields).
Proof.
  intros Hne Hflat. unfold parse.
  assert (Hlen : (length fields < 2 * String.length (stringify (JObj fields)) + 1)%nat).
  { rewrite stringify_object. cbn [String.length]. rewrite length_app.
    pose proof (length_members fields). lia. }
  replace (2 * String.length (stringify (JObj fields)) + 2)%nat
    with (S (2 * String.length (stringify (JObj fields)) + 1)) by lia.
  rewrite stringify_object at 2.
  assert (Hquote : exists body,
             String.concat "," (map member fields) +:+ "}" +:+ "" = String dq body).
  { destruct fields as [|[k v] fields']; [congruence|].
    rewrite concat_members. unfold member at 1, quote. cbn [fst]. push_app.
    eexists. reflexivity. }
  destruct Hquote as [body Hbody]. rewrite Hbody, parseValue_object, <- Hbody.
  rewrite parseMembers_flat; [reflexivity|exact Hne|exact Hflat|exact Hlen].
Qed.

Lemma outputJSON_flat (r : ContainerOutput) :
  exists fields, outputJSON r = JObj fields /\ fields <> []
                 /\ Forall (fun kv => flat (snd kv) = true) fields.
Proof.
  destruct r as [st res sid err]. unfold outputJSON. cbn [status result newSessionId error].
  eexists. split; [reflexivity|]. split; [discriminate|].
  destruct res, sid, err; repeat constructor.
Qed.

Lemma parse_stringify_output (r : ContainerOutput) :
  parse (stringify (outputJSON r)) = inl (outputJSON r).
Proof.
  destruct (outputJSON_flat r) as (fields & -> & Hne & Hflat).
  apply parse_stringify_flat; assumption.
Qed.

Lemma trimEnd_last (s : string) (c : ascii) :
  JS.isWhiteSpace c = false -> JS.trimEnd (s +:+ String c "") = s +:+ String c "".
Proof.
  intros Hc. induction s as [|a s IH].
  - rewrite app_empty_l. simpl. rewrite Hc. reflexivity.
  - rewrite app_cons, trimEnd_cons, IH.
    destruct (s +:+ String c "") eqn:E; [|reflexivity].
    destruct s; discriminate.
Qed.

Lemma trim_stringify_output (r : ContainerOutput) :
  JS.trim (stringify (outputJSON r)) = stringify (outputJSON r).
Proof.
  destruct (outputJSON_flat r) as (fields & -> & _ & _).
  rewrite stringify_object. unfold JS.trim. cbn [JS.trimStart JS.isWhiteSpace].
  change ("}" +:+ "") with (String "}" ""). rewrite <- app_cons.
  apply trimEnd_last. reflexivity.
Qed.

(** With the reference implementation the round trip through the marker
    lines needs no assumption on the JSON functions. *)
Lemma reference_round_trip (r : ContainerOutput) (before : list string) (after : string) :
  free OUTPUT_END_MARKER (stringify (outputJSON r)) ->
  Forall (fun l => free OUTPUT_START_MARKER l /\ free OUTPUT_END_MARKER l) before ->
  parseAgentOutput parse
    (unlines before +:+ OUTPUT_START_MARKER +:+ JS.nl +:+ stringify (outputJSON r)
     +:+ JS.nl +:+ OUTPUT_END_MARKER +:+ JS.nl +:+ after)
  = outputJSON r.
Proof.
  intros Hfree Hbefore. unfold parseAgentOutput.
  rewrite (jsonLine_between_marker_lines before _ after Hbefore Hfree).
  rewrite trim_stringify_output, parse_stringify_output.
  destruct (outputJSON_flat r) as (fields & -> & _). reflexivity.
Qed.

End Reference.

(** ** The sample installation at work

    The runner on [MiniJSON], POSIX paths, a five-minute timeout and, where
    truncation is to be seen, a cap of eight code units. *)

Local Abbreviation agent cap fs events :=
  (runContainerAgent "dist/agent-runner.js" 300000 cap "groups" "data"
     MiniJSON.joinPath MiniJSON.parse MiniJSON.stringify MiniJSON.stringifyPretty
     "/srv/nanoclaw" Sample.env fs Sample.group Sample.input 0 events).

Local Abbreviation started :=
  (spawned "dist/agent-runner.js" 300000 "groups" MiniJSON.joinPath MiniJSON.stringify
     Sample.group Sample.input [] Sample.env).

Local Abbreviation running cap events :=
  (run 300000 cap "groups" MiniJSON.joinPath MiniJSON.parse MiniJSON.stringifyPretty
     Sample.env Sample.healthy Sample.group Sample.input 0 started events).

Local Abbreviation closes code :=
  (ChildClose code 1200 "2024-01-01T00:00:01.200Z" "2024-01-01T00:00:01.201Z").

Local Abbreviation parsed out := (parseAgentOutput MiniJSON.parse out).

Local Abbreviation START := OUTPUT_START_MARKER.
Local Abbreviation END := OUTPUT_END_MARKER.

Example sample_success :
  received
    (agent 10485760 Sample.healthy
       [ StdoutData ("booting" +:+ JS.nl +:+ START +:+ JS.nl);
         StdoutData (MiniJSON.stringify (outputJSON Sample.ok) +:+ JS.nl +:+ END +:+ JS.nl);
         closes (Some 0) ])
  = Some (outputJSON Sample.ok).
Proof. vm_compute. reflexivity. Qed.

Example sample_exit_code :
  received
    (agent 10485760 Sample.healthy [StderrData "boom"; closes (Some 3)])
  = Some (errorOutput "Agent exited with code 3: boom").
Proof. vm_compute. reflexivity. Qed.

Example sample_fallback_line :
  parsed ("log" +:+ JS.nl +:+ MiniJSON.stringify (outputJSON Sample.ok) +:+ JS.nl +:+ " " +:+ JS.nl)
  = outputJSON Sample.ok.
Proof. vm_compute. reflexivity. Qed.

(** A groups directory that cannot be written rejects the promise; a run
    log that cannot be written lets the exception escape the listener. *)
Example sample_rejected :
  agent 10485760 Sample.readOnlyGroups [closes (Some 0)]
  = Rejected "EACCES: permission denied, mkdir 'groups/family'"
      [MkdirSync "groups/family"].
Proof. vm_compute. reflexivity. Qed.

(** *** Witnesses *)

Lemma stdout_capped_witness :
  let events := [StdoutData "hello "; StdoutData "world!"; StdoutData "more"] in
  let st := stateOf (running 8 events) in
  0 <= 8
  /\ running 8 events = Returned st
  /\ 8 < JS.len (written events)
  /\ stdout st = "hello wo"
  /\ stdoutTruncated st = true.
Proof.
  intros events st.
  assert (Hcap : 0 <= 8) by lia.
  assert (Hrun : running 8 events = Returned st) by reflexivity.
  assert (Hover : 8 < JS.len (written events)) by reflexivity.
  destruct (stdout_capped "dist/agent-runner.js" 300000 8 "groups" MiniJSON.joinPath
              MiniJSON.parse MiniJSON.stringify MiniJSON.stringifyPretty Sample.env
              Sample.healthy Sample.group Sample.input 0 [] Sample.env events st
              Hcap Hrun Hover) as (_ & _ & Htrunc & _).
  split; [exact Hcap|]. split; [exact Hrun|]. split; [exact Hover|].
  split; [reflexivity|exact Htrunc].
Defined.

Lemma timeout_result_is_final_witness :
  let pre := [StdoutData "thinking"; StderrData "warn"] in
  let post := [closes None; StdoutData "late"] in
  dataOnly pre = true
  /\ settled (stateOf (running 64 (pre ++ [TimerFires] ++ post)))
     = Some (errorOutput "Agent timed out after 300000ms").
Proof.
  intros pre post. split; [reflexivity|].
  exact (proj1 (proj2 (proj2
           (timeout_result_is_final "dist/agent-runner.js" 300000 64 "groups"
              MiniJSON.joinPath MiniJSON.parse MiniJSON.stringify MiniJSON.stringifyPretty
              Sample.env Sample.healthy Sample.group Sample.input 0 [] Sample.env
              pre post eq_refl)))).
Defined.

Lemma timeout_kills_and_resolves_witness :
  let pre := [StdoutData "thinking"] in
  let post := [closes None] in
  dataOnly pre = true
  /\ spawns (effects (stateOf (running 64 (pre ++ [TimerFires] ++ post)))) = 1%nat.
Proof.
  intros pre post. split; [reflexivity|].
  exact (proj2 (proj2 (proj2 (proj2
           (timeout_kills_and_resolves "dist/agent-runner.js" 300000 64 "groups"
              MiniJSON.joinPath MiniJSON.parse MiniJSON.stringify MiniJSON.stringifyPretty
              Sample.env Sample.healthy Sample.group Sample.input 0 [] Sample.env
              pre post eq_refl))))).
Defined.

Lemma invocation_settles_witness :
  let events := [StdoutData "not json"; closes (Some 0)] in
  (forall c : FsCall, Sample.healthy c = None)
  /\ exists st : State,
       agent 64 Sample.healthy events = Running st
       /\ (settled st = None <-> dataOnly events = true).
Proof.
  intros events. split; [reflexivity|].
  destruct (invocation_settles "dist/agent-runner.js" 300000 64 "groups" "data"
              MiniJSON.joinPath MiniJSON.parse MiniJSON.stringify MiniJSON.stringifyPretty
              "/srv/nanoclaw" Sample.env Sample.healthy Sample.group Sample.input 0
              events (fun _ => eq_refl)) as (calls & env & st & _ & Hrun & Hiff & _).
  exists st. split; [exact Hrun|exact Hiff].
Defined.

Lemma agent_env_entries_witness :
  (forall c : FsCall, Sample.healthy c = None)
  /\ Sample.nestedEnv !! "WORKSPACE_PROJECT" = Some "/srv/outer"
  /\ exists env : gmap string string,
       snd (buildAgentEnv "groups" "data" MiniJSON.joinPath "/srv/nanoclaw"
              Sample.nestedEnv Sample.healthy Sample.group false) = Normal env
       /\ env !! "WORKSPACE_GROUP" = Some "groups/family"
       /\ env !! "WORKSPACE_PROJECT" = Some "/srv/outer".
Proof.
  assert (Hnested : Sample.nestedEnv !! "WORKSPACE_PROJECT" = Some "/srv/outer")
    by (vm_compute; reflexivity).
  split; [reflexivity|]. split; [exact Hnested|].
  destruct (agent_env_entries "groups" "data" MiniJSON.joinPath "/srv/nanoclaw"
              Sample.nestedEnv Sample.healthy Sample.group false (fun _ => eq_refl))
    as (env & Henv & Hgroup & _ & _ & _ & Hproject).
  exists env. split; [exact Henv|]. split; [exact Hgroup|].
  rewrite Hproject. exact Hnested.
Defined.

Lemma snapshot_views_witness :
  let tasks := [Sample.task "family" "water the plants"; Sample.task "work" "stand-up"] in
  Sample.healthy (MkdirSync (MiniJSON.joinPath ["data"; "ipc"; "family"])) = None
  /\ filteredTasks "family" false tasks = [Sample.task "family" "water the plants"]
  /\ fst (writeGroupsSnapshot "data" MiniJSON.joinPath MiniJSON.stringifyPretty
            Sample.healthy "family" false [Sample.chat] ∅ "2024-01-01T00:00:00.000Z")
     = [ MkdirSync "data/ipc/family";
         WriteFileSync "data/ipc/family/available_groups.json"
           (MiniJSON.stringifyPretty
              (JObj [("groups", JArr []); ("lastSync", JStr "2024-01-01T00:00:00.000Z")])) ].
Proof.
  intros tasks. split; [reflexivity|]. split; [reflexivity|].
  exact (proj2 (proj2 (proj2 (proj2 (proj2 (proj2
           (snapshot_views "data" MiniJSON.joinPath MiniJSON.stringifyPretty
              Sample.healthy "family" false tasks [Sample.chat] ∅
              "2024-01-01T00:00:00.000Z" eq_refl))))))).
Defined.

Lemma marked_result_recovered_witness :
  let json := MiniJSON.stringify (outputJSON Sample.ok) in
  let before := ["booting"; "debug: session s1"] in
  MiniJSON.parse json = inl (outputJSON Sample.ok)
  /\ JS.trim json = json
  /\ free END json
  /\ parsed (unlines before +:+ START +:+ JS.nl +:+ json +:+ JS.nl +:+ END +:+ JS.nl
             +:+ "bye " +:+ END)
     = outputJSON Sample.ok.
Proof.
  intros json before.
  assert (Hparse : MiniJSON.parse json = inl (outputJSON Sample.ok))
    by (vm_compute; reflexivity).
  assert (Htrim : JS.trim json = json) by (vm_compute; reflexivity).
  assert (Hfree : free END json) by (vm_compute; reflexivity).
  split; [exact Hparse|]. split; [exact Htrim|]. split; [exact Hfree|].
  apply (marked_result_recovered MiniJSON.parse MiniJSON.stringify Sample.ok before
           ("bye " +:+ END) Hparse Htrim Hfree).
  repeat constructor.
Defined.

(** *** Where the specification and the runner part *)

(** C1.  A worker that prints [{}] and exits with code zero: the caller
    receives [{}], which is neither an error result nor of the shape of
    [ContainerOutput]. *)
Lemma unvalidated_output_is_resolved :
  received (agent 10485760 Sample.healthy [StdoutData "{}"; closes (Some 0)])
  = Some (JObj [])
  /\ isContainerOutput (JObj []) = false
  /\ getField "status" (JObj []) = None.
Proof. repeat split; vm_compute; reflexivity. Qed.

(** C4.  A result whose text contains the end marker, printed between the
    marker lines with nothing else around it, is not recovered: the first
    end marker is the one inside the serialization.  Nor is a result
    recovered when a log line before the start marker mentions the end
    marker: the parse falls back to the last line, the end marker itself. *)
Lemma marker_text_breaks_round_trip :
  let quoting : ContainerOutput :=
    {| status := Success; result := Some ("the output ends at " +:+ END);
       newSessionId := None; error := None |} in
  let quoted :=
    START +:+ JS.nl +:+ MiniJSON.stringify (outputJSON quoting) +:+ JS.nl
    +:+ END +:+ JS.nl in
  let logged :=
    "waiting for " +:+ END +:+ JS.nl
    +:+ START +:+ JS.nl +:+ MiniJSON.stringify (outputJSON Sample.ok) +:+ JS.nl
    +:+ END +:+ JS.nl in
  MiniJSON.parse (MiniJSON.stringify (outputJSON quoting)) = inl (outputJSON quoting)
  /\ parsed quoted <> outputJSON quoting
  /\ (exists message : string,
        parsed quoted = errorOutput ("Failed to parse agent output: " +:+ message))
  /\ jsonLine logged = END
  /\ parsed logged <> outputJSON Sample.ok
  /\ (exists message : string,
        parsed logged = errorOutput ("Failed to parse agent output: " +:+ message)).
Proof.
  intros quoting quoted logged.
  split; [vm_compute; reflexivity|].
  split; [vm_compute; discriminate|].
  split; [eexists; vm_compute; reflexivity|].
  split; [vm_compute; reflexivity|].
  split; [vm_compute; discriminate|].
  eexists; vm_compute; reflexivity.
Qed.

(** C5.  When the timer fires the promise is settled with the timeout
    error although no [close] event has been seen: the kill is requested,
    the exit is not awaited. *)
Lemma timeout_resolves_before_exit :
  settled (stateOf (running 64 [TimerFires]))
  = Some (errorOutput "Agent timed out after 300000ms")
  /\ exitObserved [TimerFires] = false
  /\ effects (stateOf (running 64 [TimerFires]))
     = effects started
       ++ [Kill "SIGKILL"; Resolve (errorOutput "Agent timed out after 300000ms")].
Proof. repeat split; vm_compute; reflexivity. Qed.

(** C6.  On a spawn failure the timer has been started all the same; the
    [error] listener then clears it. *)
Lemma timer_started_before_spawn_error :
  effects (stateOf (running 64 [ChildError "spawn node ENOENT"]))
  = [ Spawn "node" ["dist/agent-runner.js"] Sample.env "groups/family";
      StdinWrite (MiniJSON.stringify (inputJSON Sample.input));
      StdinEnd;
      SetTimeout 300000;
      ClearTimeout;
      Resolve (errorOutput "Agent spawn error: spawn node ENOENT") ].
Proof. vm_compute. reflexivity. Qed.


Lemma stdout_is_head_of_decoded_chunks_witness :
  let events := [StdoutData "hello "; StderrData "oops"; StdoutData "world!";
                 StdoutData "more"] in
  let st := stateOf (running 8 events) in
  0 <= 8
  /\ running 8 events = Returned st
  /\ written events = "hello world!more"
  /\ stdout st = String.substring 0 (Z.to_nat 8) (written events)
  /\ stdout st = "hello wo"
  /\ stdoutTruncated st = (8 <? JS.len (written events)).
Proof.
  intros events st.
  assert (Hcap : 0 <= 8) by lia.
  assert (Hrun : running 8 events = Returned st) by reflexivity.
  destruct (stdout_is_head_of_decoded_chunks "dist/agent-runner.js" 300000 8 "groups"
              MiniJSON.joinPath MiniJSON.parse MiniJSON.stringify MiniJSON.stringifyPretty
              Sample.env Sample.healthy Sample.group Sample.input 0 [] Sample.env events st
              Hcap Hrun) as (Hbuf & Htrunc & _).
  split; [exact Hcap|]. split; [exact Hrun|]. split; [reflexivity|].
  split; [exact Hbuf|]. split; [reflexivity|exact Htrunc].
Defined.

Lemma stderr_is_head_of_decoded_chunks_witness :
  let events := [StderrData "warn: "; StdoutData "{}"; StderrData "disk"] in
  let st := stateOf (running 8 events) in
  0 <= 8
  /\ running 8 events = Returned st
  /\ writtenErr events = "warn: disk"
  /\ JS.len (stderr st) <= 8
  /\ stderr st = String.substring 0 (Z.to_nat 8) (writtenErr events)
  /\ stderr st = "warn: di"
  /\ stderrTruncated st = (8 <? JS.len (writtenErr events)).
Proof.
  intros events st.
  assert (Hcap : 0 <= 8) by lia.
  assert (Hrun : running 8 events = Returned st) by reflexivity.
  destruct (stderr_is_head_of_decoded_chunks "dist/agent-runner.js" 300000 8 "groups"
              MiniJSON.joinPath MiniJSON.parse MiniJSON.stringify MiniJSON.stringifyPretty
              Sample.env Sample.healthy Sample.group Sample.input 0 [] Sample.env events st
              Hcap Hrun) as (Hlen & Hbuf & Htrunc).
  split; [exact Hcap|]. split; [exact Hrun|]. split; [reflexivity|].
  split; [exact Hlen|]. split; [exact Hbuf|]. split; [reflexivity|exact Htrunc].
Defined.

Lemma log_failure_settles_nothing_witness :
  let pre := [StdoutData "{}"] in
  let e := "ENOSPC: no space left on device, write" in
  dataOnly pre = true
  /\ (forall data : string,
        Sample.fullDisk
          (WriteFileSync
             (MiniJSON.joinPath
                [MiniJSON.joinPath ["groups"; folder Sample.group; "logs"];
                 "agent-" +:+ dashed "2024-01-01T00:00:01.200Z" +:+ ".log"]) data)
        = Some e)
  /\ exists st : State,
      run 300000 8 "groups" MiniJSON.joinPath MiniJSON.parse MiniJSON.stringifyPretty
        Sample.env Sample.fullDisk Sample.group Sample.input 0 started
        (pre ++ closes (Some 0) :: [TimerFires]) = Uncaught e st
      /\ settled st = None
      /\ timerPending st = false.
Proof.
  intros pre e.
  assert (Hpre : dataOnly pre = true) by reflexivity.
  assert (Hfull : forall data : string,
             Sample.fullDisk
               (WriteFileSync
                  (MiniJSON.joinPath
                     [MiniJSON.joinPath ["groups"; folder Sample.group; "logs"];
                      "agent-" +:+ dashed "2024-01-01T00:00:01.200Z" +:+ ".log"]) data)
             = Some e) by (intros data; reflexivity).
  split; [exact Hpre|]. split; [exact Hfull|].
  destruct (log_failure_settles_nothing "dist/agent-runner.js" 300000 8 "groups"
              MiniJSON.joinPath MiniJSON.parse MiniJSON.stringify MiniJSON.stringifyPretty
              Sample.env Sample.fullDisk Sample.group Sample.input 0 [] Sample.env
              pre [TimerFires] (Some 0) 1200 "2024-01-01T00:00:01.200Z"
              "2024-01-01T00:00:01.201Z" e Hpre Hfull)
    as (st & Hrun & Hnone & Hoff & _).
  exists st. split; [exact Hrun|]. split; [exact Hnone|exact Hoff].
Defined.

Lemma agent_env_inherits_host_env_witness :
  exists env : gmap string string,
    snd (buildAgentEnv "groups" "data" MiniJSON.joinPath "/srv/nanoclaw"
           Sample.env Sample.healthy Sample.group false) = Normal env
    /\ env !! "HOME" = Some "/home/nano"
    /\ (forall k : string, is_Some (Sample.env !! k) -> is_Some (env !! k)).
Proof.
  eexists. split; [reflexivity|].
  destruct (agent_env_inherits_host_env "groups" "data" MiniJSON.joinPath "/srv/nanoclaw"
              Sample.env Sample.healthy Sample.group false _ eq_refl)
    as (Hother & Hkept & _).
  split; [|exact Hkept].
  rewrite Hother; [vm_compute; reflexivity|].
  unfold assignedNames. rewrite !not_elem_of_cons.
  repeat (split; [discriminate|]). apply not_elem_of_nil.
Defined.

Lemma exit_error_quotes_stderr_tail_witness :
  let pre := [StderrData "boom"; StdoutData "{}"] in
  let st := stateOf (running 8 (pre ++ closes (Some 1) :: [TimerFires])) in
  0 <= 8
  /\ dataOnly pre = true
  /\ nonZero (Some 1) = true
  /\ running 8 (pre ++ closes (Some 1) :: [TimerFires]) = Returned st
  /\ settled st = Some (errorOutput "Agent exited with code 1: boom")
  /\ exists head tail : string,
      String.substring 0 (Z.to_nat 8) (writtenErr pre) = head +:+ tail
      /\ String.length tail = Nat.min 200 (String.length (head +:+ tail))
      /\ settled st
         = Some (errorOutput
                   ("Agent exited with code " +:+ showCode (Some 1) +:+ ": " +:+ tail)).
Proof.
  intros pre st.
  assert (Hcap : 0 <= 8) by lia.
  assert (Hpre : dataOnly pre = true) by reflexivity.
  assert (Hcode : nonZero (Some 1) = true) by reflexivity.
  assert (Hrun : running 8 (pre ++ closes (Some 1) :: [TimerFires]) = Returned st)
    by reflexivity.
  split; [exact Hcap|]. split; [exact Hpre|]. split; [exact Hcode|].
  split; [exact Hrun|]. split; [reflexivity|].
  exact (exit_error_quotes_stderr_tail "dist/agent-runner.js" 300000 8 "groups"
           MiniJSON.joinPath MiniJSON.parse MiniJSON.stringify MiniJSON.stringifyPretty
           Sample.env Sample.healthy Sample.group Sample.input 0 [] Sample.env
           pre [TimerFires] (Some 1) 1200 "2024-01-01T00:00:01.200Z"
           "2024-01-01T00:00:01.201Z" st Hcap Hpre Hcode Hrun).
Defined.

Lemma quiet_log_shows_flags_and_lengths_only_witness :
  let other : ContainerInput :=
    {| prompt := "adieu"; sessionId := Some ""; groupFolder := "family";
       chatJid := "120363@g.us"; isMain := false; isScheduledTask := Some true |} in
  let st := stateOf (running 8 [StdoutData "a secret"; StderrData "warn"]) in
  let cut := stateOf (running 8 [StdoutData "a secret!"; StderrData "warn"]) in
  isVerbose Sample.env = false
  /\ logLines MiniJSON.stringifyPretty Sample.env Sample.group Sample.input 1200
       (Some 0) "2024-01-01T00:00:01.201Z" started
     = logLines MiniJSON.stringifyPretty Sample.env Sample.group other 1200
         (Some 0) "2024-01-01T00:00:01.201Z" st
  /\ logLines MiniJSON.stringifyPretty Sample.env Sample.group Sample.input 1200
       (Some 0) "2024-01-01T00:00:01.201Z" st
     <> logLines MiniJSON.stringifyPretty Sample.env Sample.group other 1200
          (Some 0) "2024-01-01T00:00:01.201Z" cut
  /\ length (logLines MiniJSON.stringifyPretty Sample.env Sample.group Sample.input 1200
               (Some 0) "2024-01-01T00:00:01.201Z" started) = 13%nat.
Proof.
  intros other st cut.
  assert (Hquiet : isVerbose Sample.env = false) by (vm_compute; reflexivity).
  assert (Hmain : isMain Sample.input = isMain other) by reflexivity.
  assert (Hlen : JS.len (prompt Sample.input) = JS.len (prompt other)) by reflexivity.
  assert (Hsession : sessionOrNew Sample.input = sessionOrNew other) by reflexivity.
  assert (Hzero : forall a b : State,
             nonZero (Some 0) = true ->
             JS.sliceFrom (stderr a) (-500) = JS.sliceFrom (stderr b) (-500))
    by (intros a b H; discriminate H).
  split; [exact Hquiet|]. split; [|split].
  - destruct (quiet_log_shows_flags_and_lengths_only MiniJSON.stringifyPretty Sample.env
                Sample.group Sample.input other 1200 (Some 0) "2024-01-01T00:00:01.201Z"
                started st Hquiet Hmain Hlen Hsession (Hzero started st))
      as [[Hsame _] _].
    apply Hsame. split; reflexivity.
  - destruct (quiet_log_shows_flags_and_lengths_only MiniJSON.stringifyPretty Sample.env
                Sample.group Sample.input other 1200 (Some 0) "2024-01-01T00:00:01.201Z"
                st cut Hquiet Hmain Hlen Hsession (Hzero st cut))
      as [[_ Hflags] _].
    intros H. destruct (Hflags H) as [Hout _]. discriminate Hout.
  - destruct (quiet_log_shows_flags_and_lengths_only MiniJSON.stringifyPretty Sample.env
                Sample.group Sample.input other 1200 (Some 0) "2024-01-01T00:00:01.201Z"
                started st Hquiet Hmain Hlen Hsession (Hzero started st))
      as [_ Hcount].
    exact Hcount.
Defined.

Lemma white_space_around_output_is_ignored_witness :
  let out := START +:+ "{}" +:+ END in
  blank "  " = true
  /\ blank JS.nl = true
  /\ jsonLine ("  " +:+ out +:+ JS.nl) = jsonLine out
  /\ jsonLine out = "{}"
  /\ parsed ("  " +:+ out +:+ JS.nl) = parsed out
  /\ jsonLine JS.nl = "".
Proof.
  intros out.
  assert (Hb : blank "  " = true) by reflexivity.
  assert (Ha : blank JS.nl = true) by reflexivity.
  destruct (white_space_around_output_is_ignored MiniJSON.parse "  " out JS.nl Hb Ha)
    as (Hline & Hparsed & Hblank).
  split; [exact Hb|]. split; [exact Ha|]. split; [exact Hline|].
  split; [reflexivity|]. split; [exact Hparsed|exact Hblank].
Defined.
